(** * Vibehoot: the game session engine (src/lib/game-engine.ts)

    A shallow embedding of [GameEngine] and of the Redis session store it
    reads and writes, followed by the properties of the engine.

    Modelling conventions.
    - A JavaScript [number] that holds a timestamp, an index or a score is
      an integer ([Z]).  The score formula is evaluated over exact
      rationals ([Q]) and [Math.round] is [floor (x + 1/2)].  The
      quotient [x / y] is the JavaScript one for [y <> 0] only (for
      [y = 0] JavaScript yields an infinity or [NaN]), so every statement
      about the points of a correct answer is made for questions whose
      [timeLimit] is at least 1.  The quiz edit route rejects a smaller
      one, but quiz creation checks nothing, so this is a condition on
      the catalog and is written out wherever it is used.
    - [Record<string, V>] objects are insertion-ordered association lists
      ([JsObject]).  The list is the JavaScript object for keys that are
      [ordinary_key]s: a key made of decimal digits can be an array
      index, which JavaScript enumerates before all other keys, and a key
      that names a member of [Object.prototype] is found by a property
      read although it was never assigned.  Statements about the place of
      a new key in the enumeration name this condition.
    - Redis is a finite map from keys to the stored [GameState]; the
      [JSON.stringify] / [JSON.parse] round trip is the identity on the
      values used here.
    - [Date.now()] is an argument [now] of the operations that read it,
      one reading per call.
    - An engine operation as a function on the store ([run]) is a call
      that goes from its [redis.get] to its [redis.set] with no write of
      another call in between.  Calls of different connections interleave
      at their [await]s; [overlapped] is the store under such histories.
    - The Prisma session row (the audit ledger) is written but never read
      by the engine and is left out of the operations; the errors of an
      operation are the five that the engine raises itself.  What a
      rejected ledger write does to a call is the subject of the
      [Ledgered] operations.  The quiz table is the read-only parameter
      [findQuiz]. *)

From Stdlib Require Import ZArith QArith Qround Qminmax Lia Lqa.
From Stdlib Require Import Sorted Permutation.
From stdpp Require Import gmap strings list fin_maps.

Local Open Scope Z_scope.
Local Open Scope string_scope.

(** ** Data model *)

Inductive Status : Set :=
| WAITING
| ACTIVE
| SHOWING_QUESTION
| SHOWING_RESULTS
| ENDED.

#[global] Instance Status_eq_dec : EqDecision Status.
Proof. solve_decision. Defined.

Module Player.
Record t : Set := mk { id : string; nickname : string; score : Z }.
End Player.

Module Answer.
Record t : Set := mk { playerId : string; optionIndex : Z; responseTimeMs : Z }.
End Answer.

Module Question.
Record t : Set := mk {
  id : string;
  text : string;
  options : list string;
  correctOptionIndex : Z;
  timeLimit : Z;
  order : Z
}.
End Question.

(** ** [Record<string, V>]: an object used as a map

    Property order is insertion order; assigning to a key that is present
    replaces the value where it stands. *)

Module JsObject.
Section Obj.
Context {V : Type}.

Definition t := list (string * V).

Definition empty : t := [].

Fixpoint get (o : t) (k : string) : option V :=
  match o with
  | [] => None
  | (k', v) :: o' => if decide (k' = k) then Some v else get o' k
  end.

Fixpoint set (o : t) (k : string) (v : V) : t :=
  match o with
  | [] => [(k, v)]
  | (k', v') :: o' =>
      if decide (k' = k) then (k, v) :: o' else (k', v') :: set o' k v
  end.

Definition keys (o : t) : list string := map fst o.
Definition values (o : t) : list V := map snd o.

End Obj.
Arguments t : clear implicits.
End JsObject.

Record GameState : Type := mkGameState {
  sessionId : string;
  quizId : string;
  hostId : string;
  status : Status;
  currentQuestionIndex : Z;
  players : JsObject.t Player.t;
  answers : JsObject.t Answer.t;
  questionStartTime : option Z;
  startTime : option Z
}.

(** ** The Redis session store and the engine monad

    Every engine operation is an [async] function that reads and writes
    Redis and may throw; [Engine A] threads the store and returns either
    the thrown [Error] or the value.  A throw keeps whatever has been
    written before it. *)

Inductive EngineError : Set :=
| SessionNotFound
| GameAlreadyStarted
| NotAcceptingAnswers
| AlreadyAnswered
| NoCurrentQuestion.

(** The [message] of the thrown [Error]. *)
Definition message (e : EngineError) : string :=
  match e with
  | SessionNotFound => "Session not found"
  | GameAlreadyStarted => "Game already started"
  | NotAcceptingAnswers => "Not accepting answers"
  | AlreadyAnswered => "Already answered"
  | NoCurrentQuestion => "No current question"
  end.

Abbreviation Redis := (gmap string GameState).

Definition Engine (A : Type) : Type := Redis -> (EngineError + A) * Redis.

Definition ret {A} (a : A) : Engine A := fun db => (inr a, db).

Definition throw {A} (e : EngineError) : Engine A := fun db => (inl e, db).

Definition bind {A B} (m : Engine A) (k : A -> Engine B) : Engine B :=
  fun db =>
    match m db with
    | (inl e, db') => (inl e, db')
    | (inr a, db') => k a db'
    end.

Notation "'await' x <- m ; k" := (bind m (fun x => k))
  (at level 10, x name, m at level 100, k at level 200).
Notation "'await_' m ; k" := (bind m (fun _ => k))
  (at level 10, m at level 100, k at level 200).

(** The key [`session:${joinCode}`]. *)
Definition session_key (joinCode : string) : string := "session:" +:+ joinCode.

Definition redis_get (key : string) : Engine (option GameState) :=
  fun db => (inr (db !! key), db).

Definition redis_set (key : string) (value : GameState) : Engine unit :=
  fun db => (inr tt, <[key := value]> db).

(** The outcome and the store left by running an operation. *)
Definition outcome {A} (m : Engine A) (db : Redis) : EngineError + A := fst (m db).
Definition stored {A} (m : Engine A) (db : Redis) : Redis := snd (m db).

(** ** Scoring arithmetic *)

(** [Math.round]: the nearest integer, ties towards plus infinity. *)
Definition Math_round (x : Q) : Z := Qfloor (x + (1 # 2)).

(** [Math.max(0, 1 - (responseTimeMs / (question.timeLimit * 1000)))],
    for a time limit other than 0. *)
Definition timeBonus (responseTimeMs timeLimit : Z) : Q :=
  Qmax 0 (1 - inject_Z responseTimeMs / (inject_Z timeLimit * 1000)).

(** The body of [if (correct) { ... }] with [let points = 0] before it. *)
Definition score_points (correct : bool) (responseTimeMs timeLimit : Z) : Z :=
  if correct
  then Math_round (1000 + timeBonus responseTimeMs timeLimit * 500)
  else 0.

(** [questions[i]]: [undefined] below 0 and from the length on. *)
Definition array_get {A} (l : list A) (i : Z) : option A :=
  if decide (0 <= i) then l !! Z.to_nat i else None.

(** [state.questionStartTime || now]: [null] and [0] are falsy. *)
Definition or_now (t : option Z) (now : Z) : Z :=
  match t with
  | Some t0 => if decide (t0 = 0) then now else t0
  | None => now
  end.

(** Field assignments on the parsed state. *)
Definition set_status (s : Status) (st : GameState) : GameState :=
  mkGameState (sessionId st) (quizId st) (hostId st) s
    (currentQuestionIndex st) (players st) (answers st)
    (questionStartTime st) (startTime st).

Definition set_currentQuestionIndex (i : Z) (st : GameState) : GameState :=
  mkGameState (sessionId st) (quizId st) (hostId st) (status st)
    i (players st) (answers st) (questionStartTime st) (startTime st).

Definition set_players (ps : JsObject.t Player.t) (st : GameState) : GameState :=
  mkGameState (sessionId st) (quizId st) (hostId st) (status st)
    (currentQuestionIndex st) ps (answers st)
    (questionStartTime st) (startTime st).

Definition set_answers (ans : JsObject.t Answer.t) (st : GameState) : GameState :=
  mkGameState (sessionId st) (quizId st) (hostId st) (status st)
    (currentQuestionIndex st) (players st) ans
    (questionStartTime st) (startTime st).

Definition set_questionStartTime (t : option Z) (st : GameState) : GameState :=
  mkGameState (sessionId st) (quizId st) (hostId st) (status st)
    (currentQuestionIndex st) (players st) (answers st) t (startTime st).

Definition set_startTime (t : option Z) (st : GameState) : GameState :=
  mkGameState (sessionId st) (quizId st) (hostId st) (status st)
    (currentQuestionIndex st) (players st) (answers st)
    (questionStartTime st) t.

(** [state.players[playerId].score += points], guarded by
    [if (state.players[playerId])]. *)
Definition add_score (ps : JsObject.t Player.t) (playerId : string) (points : Z)
  : JsObject.t Player.t :=
  match JsObject.get ps playerId with
  | Some p =>
      JsObject.set ps playerId
        (Player.mk (Player.id p) (Player.nickname p) (Player.score p + points))
  | None => ps
  end.

(** The loop of [showResults] over [Object.values(state.answers)]:
    [distribution] starts as [[0, 0, 0, 0]] and [correctCount] as [0]. *)
Definition tally (correctOptionIndex : Z) (acc : list Z * Z) (answer : Answer.t)
  : list Z * Z :=
  let '(distribution, correctCount) := acc in
  let oi := Answer.optionIndex answer in
  let distribution' :=
    if decide (0 <= oi /\ oi < 4)
    then alter Z.succ (Z.to_nat oi) distribution
    else distribution in
  let correctCount' :=
    if decide (oi = correctOptionIndex) then correctCount + 1 else correctCount in
  (distribution', correctCount').

(** [Array.prototype.sort((a, b) => b.score - a.score)]: a stable sort,
    here by insertion, that puts higher scores first and keeps players of
    equal score in their original order. *)
Fixpoint insert_by_score (p : Player.t) (l : list Player.t) : list Player.t :=
  match l with
  | [] => [p]
  | q :: l' =>
      if decide (Player.score q <= Player.score p)
      then p :: q :: l'
      else q :: insert_by_score p l'
  end.

Definition sort_by_score (l : list Player.t) : list Player.t :=
  foldr insert_by_score [] l.

(** [a] may stand before [b] on the leaderboard. *)
Definition score_ge (a b : Player.t) : Prop := Player.score b <= Player.score a.

(** Every score is greater than or equal to the next. *)
Definition descending (l : list Player.t) : Prop := Sorted score_ge l.

Record ShowResultsReply : Type := mkShowResults {
  sr_state : GameState;
  sr_correctOptionIndex : Z;
  answerDistribution : list Z;
  correctCount : Z
}.

Record NextQuestionReply : Type := mkNextQuestion {
  nq_state : GameState;
  question : option Question.t;
  totalQuestions : Z
}.

(** ** The engine *)

Section GameEngine.

(** [prisma.quiz.findUnique] with [include: { questions: { orderBy:
    { order: 'asc' } } }]: the questions of a quiz as the database
    returns them, or [None] for an unknown quiz. *)
Variable findQuiz : string -> option (list Question.t).

(** [createSession]: [joinCode] is the six-digit code drawn from
    [Math.random] and [newSessionId] the id of the created Prisma row. *)
Definition createSession (quizId0 hostId0 : string)
    (joinCode newSessionId : string) : Engine string :=
  let initialState :=
    mkGameState newSessionId quizId0 hostId0 WAITING (-1)
      JsObject.empty JsObject.empty None None in
  await_ redis_set (session_key joinCode) initialState;
  ret joinCode.

Definition joinSession (joinCode nickname playerId : string) : Engine GameState :=
  await stateRaw <- redis_get (session_key joinCode);
  match stateRaw with
  | None => throw SessionNotFound
  | Some state =>
      if decide (status state <> WAITING) then throw GameAlreadyStarted
      else
        let state :=
          set_players
            (JsObject.set (players state) playerId (Player.mk playerId nickname 0))
            state in
        await_ redis_set (session_key joinCode) state;
        ret state
  end.

Definition getSession (joinCode : string) : Engine (option GameState) :=
  redis_get (session_key joinCode).

Definition getQuizQuestions (quizId0 : string) : list Question.t :=
  match findQuiz quizId0 with
  | None => []
  | Some questions => questions
  end.

Definition startGame (joinCode : string) (now : Z) : Engine (option GameState) :=
  await state <- getSession joinCode;
  match state with
  | None => ret None
  | Some state =>
      let state := set_status ACTIVE state in
      let state := set_startTime (Some now) state in
      let state := set_currentQuestionIndex (-1) state in
      await_ redis_set (session_key joinCode) state;
      ret (Some state)
  end.

Definition nextQuestion (joinCode : string) (now : Z) : Engine NextQuestionReply :=
  await state <- getSession joinCode;
  match state with
  | None => throw SessionNotFound
  | Some state =>
      let questions := getQuizQuestions (quizId state) in
      let state := set_currentQuestionIndex (currentQuestionIndex state + 1) state in
      let state := set_answers JsObject.empty state in
      let state := set_questionStartTime (Some now) state in
      let state := set_status SHOWING_QUESTION state in
      let question := array_get questions (currentQuestionIndex state) in
      let state :=
        match question with
        | None => set_status ENDED state
        | Some _ => state
        end in
      await_ redis_set (session_key joinCode) state;
      ret (mkNextQuestion state question (Z.of_nat (length questions)))
  end.

(** The response time, the points and the state that [submitAnswer]
    computes from the parsed [state] and the current [question]. *)
Definition responseTime (state : GameState) (now : Z) : Z :=
  now - or_now (questionStartTime state) now.

Definition points_for (state : GameState) (question : Question.t)
    (optionIndex now : Z) : Z :=
  score_points (bool_decide (optionIndex = Question.correctOptionIndex question))
    (responseTime state now) (Question.timeLimit question).

Definition record_answer (state : GameState) (question : Question.t)
    (playerId : string) (optionIndex now : Z) : GameState :=
  set_players
    (add_score (players state) playerId (points_for state question optionIndex now))
    (set_answers
       (JsObject.set (answers state) playerId
          (Answer.mk playerId optionIndex (responseTime state now)))
       state).

(** [submitAnswer] from the reply of [await this.getSession(joinCode)]
    to its end. *)
Definition submitAnswer_resume (state : option GameState)
    (joinCode playerId : string) (optionIndex : Z) (now : Z) : Engine (bool * Z) :=
  match state with
  | None => throw SessionNotFound
  | Some state =>
      if decide (status state <> SHOWING_QUESTION) then throw NotAcceptingAnswers
      else if JsObject.get (answers state) playerId is Some _ then throw AlreadyAnswered
      else
        let questions := getQuizQuestions (quizId state) in
        match array_get questions (currentQuestionIndex state) with
        | None => throw NoCurrentQuestion
        | Some question =>
            let responseTimeMs := now - or_now (questionStartTime state) now in
            let correct :=
              bool_decide (optionIndex = Question.correctOptionIndex question) in
            let points :=
              score_points correct responseTimeMs (Question.timeLimit question) in
            let state :=
              set_answers
                (JsObject.set (answers state) playerId
                   (Answer.mk playerId optionIndex responseTimeMs))
                state in
            let state := set_players (add_score (players state) playerId points) state in
            await_ redis_set (session_key joinCode) state;
            ret (correct, points)
        end
  end.

Definition submitAnswer (joinCode playerId : string) (optionIndex : Z) (now : Z)
  : Engine (bool * Z) :=
  await state <- getSession joinCode;
  submitAnswer_resume state joinCode playerId optionIndex now.

Definition showResults (joinCode : string) : Engine ShowResultsReply :=
  await state <- getSession joinCode;
  match state with
  | None => throw SessionNotFound
  | Some state =>
      let questions := getQuizQuestions (quizId state) in
      match array_get questions (currentQuestionIndex state) with
      | None => throw NoCurrentQuestion
      | Some question =>
          let state := set_status SHOWING_RESULTS state in
          await_ redis_set (session_key joinCode) state;
          let '(distribution, correctCount) :=
            fold_left (tally (Question.correctOptionIndex question))
              (JsObject.values (answers state)) ([0; 0; 0; 0], 0) in
          ret (mkShowResults state (Question.correctOptionIndex question)
                 distribution correctCount)
      end
  end.

Definition getLeaderboard (joinCode : string) : Engine (list Player.t) :=
  await state <- getSession joinCode;
  match state with
  | None => ret []
  | Some state => ret (take 10 (sort_by_score (JsObject.values (players state))))
  end.

Definition endGame (joinCode : string) : Engine unit :=
  await state <- getSession joinCode;
  match state with
  | None => ret tt
  | Some state =>
      let state := set_status ENDED state in
      await_ redis_set (session_key joinCode) state;
      ret tt
  end.

(** *** Counting answers *)

(** The number of answers that chose option [i]. *)
Definition count_answers (i : Z) (l : list Answer.t) : Z :=
  Z.of_nat (count_occ Z.eq_dec (map Answer.optionIndex l) i).

(** The number of answers whose option is one of the buckets 0..3. *)
Definition count_bucketed (l : list Answer.t) : Z :=
  Z.of_nat (length (List.filter (fun a => bool_decide (0 <= Answer.optionIndex a < 4)) l)).

Definition sum_list (l : list Z) : Z := foldr Z.add 0 l.

(** *** Histories of engine calls

    A [Command] is one call of a writing engine operation together with
    the values it draws from its environment (the clock, the random join
    code, the id of the new Prisma row); [run] is the store it leaves. *)

Inductive Command : Type :=
| CreateSession (quizId0 hostId0 joinCode newSessionId : string)
| JoinSession (joinCode nickname playerId : string)
| StartGame (joinCode : string) (now : Z)
| NextQuestion (joinCode : string) (now : Z)
| SubmitAnswer (joinCode playerId : string) (optionIndex now : Z)
| ShowResults (joinCode : string)
| EndGame (joinCode : string).

Definition run (c : Command) (db : Redis) : Redis :=
  match c with
  | CreateSession q h jc sid => stored (createSession q h jc sid) db
  | JoinSession jc nick pid => stored (joinSession jc nick pid) db
  | StartGame jc now => stored (startGame jc now) db
  | NextQuestion jc now => stored (nextQuestion jc now) db
  | SubmitAnswer jc pid oi now => stored (submitAnswer jc pid oi now) db
  | ShowResults jc => stored (showResults jc) db
  | EndGame jc => stored (endGame jc) db
  end.

Definition run_all (cs : list Command) (db : Redis) : Redis :=
  fold_left (fun db c => run c db) cs db.

(** The stores that the engine can build, starting from an empty Redis. *)
Inductive reachable : Redis -> Prop :=
| reachable_empty : reachable ∅
| reachable_run c db : reachable db -> reachable (run c db).

(** The key a command works on. *)
Definition command_key (c : Command) : string :=
  match c with
  | CreateSession _ _ jc _ | JoinSession jc _ _ | StartGame jc _
  | NextQuestion jc _ | SubmitAnswer jc _ _ _ | ShowResults jc
  | EndGame jc => session_key jc
  end.

Definition is_create (c : Command) : bool :=
  match c with CreateSession _ _ _ _ => true | _ => false end.

Definition is_start (c : Command) : bool :=
  match c with StartGame _ _ => true | _ => false end.

(** What the session invariants say about one stored state. *)
Definition questionCount (st : GameState) : Z :=
  Z.of_nat (length (getQuizQuestions (quizId st))).

Definition current_question (st : GameState) : option Question.t :=
  array_get (getQuizQuestions (quizId st)) (currentQuestionIndex st).

Definition scores_zero (st : GameState) : Prop :=
  Forall (fun p => Player.score p = 0) (JsObject.values (players st)).

Record session_inv (st : GameState) : Prop := mk_session_inv {
  inv_index_lower : -1 <= currentQuestionIndex st;
  inv_index_ended : questionCount st <= currentQuestionIndex st -> status st = ENDED;
  inv_waiting : status st = WAITING -> scores_zero st;
  inv_question : status st = SHOWING_QUESTION -> is_Some (current_question st)
}.

(** The command opens a new session under [key], replacing what the
    key held. *)
Definition replaces (c : Command) (key : string) : bool :=
  is_create c && bool_decide (command_key c = key).

(** The command is a [startGame] on the session stored under [key]. *)
Definition restarts (c : Command) (key : string) : bool :=
  is_start c && bool_decide (command_key c = key).

(** The command is a [nextQuestion] on the session stored under [key]. *)
Definition advances (c : Command) (key : string) : bool :=
  match c with
  | NextQuestion joinCode _ => bool_decide (session_key joinCode = key)
  | _ => false
  end.

(** How many times a history calls [nextQuestion] on a session. *)
Fixpoint nextQuestion_calls (key : string) (cs : list Command) : Z :=
  match cs with
  | [] => 0
  | c :: cs' => (if advances c key then 1 else 0) + nextQuestion_calls key cs'
  end.

(** A history that neither restarts the session nor opens a new one
    under its key. *)
Definition same_game (key : string) (cs : list Command) : Prop :=
  Forall (fun c => replaces c key = false /\ restarts c key = false) cs.

(** Every question of the catalog has a time limit of at least one
    second, the bound of the quiz edit route. *)
Definition timeLimits_positive : Prop :=
  forall quizId0 questions q,
    findQuiz quizId0 = Some questions -> In q questions -> 1 <= Question.timeLimit q.

(** Scores of the players of [st] are kept or raised in [st']. *)
Definition scores_kept (st st' : GameState) : Prop :=
  forall playerId p,
    JsObject.get (players st) playerId = Some p ->
    exists p',
      JsObject.get (players st') playerId = Some p' /\
      Player.score p <= Player.score p'.

Definition store_inv (db : Redis) : Prop :=
  forall k st, db !! k = Some st -> session_inv st.

(** *** Two [submitAnswer] calls in flight

    An [async] call runs until its next [await] and is resumed later, so
    calls from different sockets interleave at the [await]s.  For the
    store only two moments of a [submitAnswer] call matter: Redis serving
    its [GET] (the call then holds that reply) and the continuation
    running on to its [redis.set]; the catalog query in between does not
    touch Redis. *)

Record SubmitCall : Type := mkSubmitCall {
  call_joinCode : string;
  call_playerId : string;
  call_optionIndex : Z;
  call_now : Z
}.

Record InFlight : Type := mkInFlight {
  fl_call : SubmitCall;
  fl_reply : option (option GameState);
  fl_result : option (EngineError + bool * Z)
}.

Definition launch (c : SubmitCall) : InFlight := mkInFlight c None None.

(** Redis serves the call's [GET]. *)
Definition serve (f : InFlight) (db : Redis) : InFlight :=
  match fl_reply f with
  | None => mkInFlight (fl_call f) (Some (db !! session_key (call_joinCode (fl_call f)))) None
  | Some _ => f
  end.

(** The call resumes with the reply it holds and runs to its end. *)
Definition resume (f : InFlight) (db : Redis) : InFlight * Redis :=
  match fl_reply f, fl_result f with
  | Some reply, None =>
      let c := fl_call f in
      let '(r, db') :=
        submitAnswer_resume reply (call_joinCode c) (call_playerId c)
          (call_optionIndex c) (call_now c) db in
      (mkInFlight c (Some reply) (Some r), db')
  | _, _ => (f, db)
  end.

Inductive Caller : Set := CallerA | CallerB.

Inductive Event : Set :=
| Serve (who : Caller)
| Resume (who : Caller).

Record Concurrent : Type := mkConcurrent {
  flightA : InFlight;
  flightB : InFlight;
  redis : Redis
}.

Definition event_step (sys : Concurrent) (e : Event) : Concurrent :=
  match e with
  | Serve CallerA => mkConcurrent (serve (flightA sys) (redis sys)) (flightB sys) (redis sys)
  | Serve CallerB => mkConcurrent (flightA sys) (serve (flightB sys) (redis sys)) (redis sys)
  | Resume CallerA =>
      let '(f, db) := resume (flightA sys) (redis sys) in
      mkConcurrent f (flightB sys) db
  | Resume CallerB =>
      let '(f, db) := resume (flightB sys) (redis sys) in
      mkConcurrent (flightA sys) f db
  end.

Definition schedule (es : list Event) (a b : SubmitCall) (db : Redis) : Concurrent :=
  fold_left event_step es (mkConcurrent (launch a) (launch b) db).

(** Both calls have returned. *)
Definition settled (sys : Concurrent) : Prop :=
  is_Some (fl_result (flightA sys)) /\ is_Some (fl_result (flightB sys)).

(** The stored state holds the answer of [playerId] with this option. *)
Definition answer_recorded (db : Redis) (joinCode playerId : string) (optionIndex : Z)
  : Prop :=
  exists st a,
    db !! session_key joinCode = Some st /\
    JsObject.get (answers st) playerId = Some a /\
    Answer.optionIndex a = optionIndex.

(** The stored score of [playerId], when the player is on the roster. *)
Definition stored_score (db : Redis) (joinCode playerId : string) : option Z :=
  match db !! session_key joinCode with
  | Some st => Player.score <$> JsObject.get (players st) playerId
  | None => None
  end.

(** The two schedules in which one call has returned before Redis
    serves the other. *)
Definition serial (es : list Event) : Prop :=
  es = [Serve CallerA; Resume CallerA; Serve CallerB; Resume CallerB] \/
  es = [Serve CallerB; Resume CallerB; Serve CallerA; Resume CallerA].

(** The call whose continuation runs last, that is the call whose
    [redis.set] is the last write. *)
Definition last_resumed (es : list Event) : option Caller :=
  last (omap (fun e => match e with Resume who => Some who | Serve _ => None end) es).

(** Every order of the four events in which each call is served before
    it resumes. *)
Definition interleavings : list (list Event) :=
  [ [Serve CallerA; Resume CallerA; Serve CallerB; Resume CallerB];
    [Serve CallerA; Serve CallerB; Resume CallerA; Resume CallerB];
    [Serve CallerA; Serve CallerB; Resume CallerB; Resume CallerA];
    [Serve CallerB; Serve CallerA; Resume CallerA; Resume CallerB];
    [Serve CallerB; Serve CallerA; Resume CallerB; Resume CallerA];
    [Serve CallerB; Resume CallerB; Serve CallerA; Resume CallerA] ].

(** Two calls by different players on the session of [joinCode], which
    is showing a question that neither has answered. *)
Definition racing (db : Redis) (joinCode : string) (a b : SubmitCall) : Prop :=
  exists st q,
    db !! session_key joinCode = Some st /\
    status st = SHOWING_QUESTION /\
    current_question st = Some q /\
    1 <= Question.timeLimit q /\
    call_joinCode a = joinCode /\ call_joinCode b = joinCode /\
    call_playerId a <> call_playerId b /\
    JsObject.get (answers st) (call_playerId a) = None /\
    JsObject.get (answers st) (call_playerId b) = None.

(** The call has returned [points] and the store holds its answer and
    the caller's score raised by [points] over the score in [db0]. *)
Definition update_present (db0 db : Redis) (f : InFlight) : Prop :=
  exists correct points,
    fl_result f = Some (inr (correct, points)) /\
    answer_recorded db (call_joinCode (fl_call f)) (call_playerId (fl_call f))
      (call_optionIndex (fl_call f)) /\
    stored_score db (call_joinCode (fl_call f)) (call_playerId (fl_call f))
      = (fun s => s + points)
          <$> stored_score db0 (call_joinCode (fl_call f)) (call_playerId (fl_call f)).

(** The call has returned successfully, yet the store holds neither its
    answer nor a change of the caller's score. *)
Definition update_lost (db0 db : Redis) (f : InFlight) : Prop :=
  (exists r, fl_result f = Some (inr r)) /\
  (forall optionIndex,
     ~ answer_recorded db (call_joinCode (fl_call f)) (call_playerId (fl_call f))
         optionIndex) /\
  stored_score db (call_joinCode (fl_call f)) (call_playerId (fl_call f))
    = stored_score db0 (call_joinCode (fl_call f)) (call_playerId (fl_call f)).

End GameEngine.

(** ** A sample quiz and a sample session

    The quiz of the engine's unit tests, and the store after the host has
    opened a session, two players have joined and the first question has
    been put up at time 2000. *)

Definition question1 : Question.t :=
  Question.mk "q1" "Question 1" ["A"; "B"; "C"; "D"] 0 20 0.

Definition question2 : Question.t :=
  Question.mk "q2" "Question 2" ["A"; "B"; "C"; "D"] 1 30 1.

Definition sample_findQuiz (quizId0 : string) : option (list Question.t) :=
  if decide (quizId0 = "quiz-1") then Some [question1; question2] else None.

Definition sample_lobby : Redis :=
  run_all sample_findQuiz
    [CreateSession "quiz-1" "host-1" "123456" "session-1";
     JoinSession "123456" "Alice" "P1";
     JoinSession "123456" "Bob" "P2"] ∅.

Definition sample_asking : Redis :=
  run_all sample_findQuiz
    [StartGame "123456" 1000; NextQuestion "123456" 2000] sample_lobby.

Definition sample_asking_state : GameState :=
  mkGameState "session-1" "quiz-1" "host-1" SHOWING_QUESTION 0
    [("P1", Player.mk "P1" "Alice" 0); ("P2", Player.mk "P2" "Bob" 0)]
    [] (Some 2000) (Some 1000).

(** The host keeps asking for the next question after the two questions
    of the sample quiz are used up. *)
Definition sample_overrun : Redis :=
  run_all sample_findQuiz
    [CreateSession "quiz-1" "host-1" "123456" "session-1";
     StartGame "123456" 1000;
     NextQuestion "123456" 2000;
     NextQuestion "123456" 3000;
     NextQuestion "123456" 4000;
     NextQuestion "123456" 5000] ∅.

Definition sample_lobby_state : GameState :=
  mkGameState "session-1" "quiz-1" "host-1" WAITING (-1)
    [("P1", Player.mk "P1" "Alice" 0); ("P2", Player.mk "P2" "Bob" 0)]
    [] None None.

(** The sample game after its last question: the third [nextQuestion]
    found no question and ended it. *)
Definition sample_ended : Redis :=
  run_all sample_findQuiz
    [CreateSession "quiz-1" "host-1" "123456" "session-1";
     StartGame "123456" 1000;
     NextQuestion "123456" 2000;
     NextQuestion "123456" 3000;
     NextQuestion "123456" 4000] ∅.

Definition sample_ended_state : GameState :=
  mkGameState "session-1" "quiz-1" "host-1" ENDED 2 [] [] (Some 4000) (Some 1000).

(** A true/false quiz: one question with two options, as the JSON
    import of the quiz editor allows, and its session while the question
    is up. *)
Definition question_tf : Question.t :=
  Question.mk "tf1" "The Earth is flat" ["True"; "False"] 1 20 0.

Definition tf_findQuiz (quizId0 : string) : option (list Question.t) :=
  if decide (quizId0 = "quiz-tf") then Some [question_tf] else None.

Definition tf_asking_state : GameState :=
  mkGameState "session-2" "quiz-tf" "host-1" SHOWING_QUESTION 0
    [("P1", Player.mk "P1" "Alice" 0)] [] (Some 2000) (Some 1000).

Definition tf_asking : Redis :=
  run_all tf_findQuiz
    [CreateSession "quiz-tf" "host-1" "654321" "session-2";
     JoinSession "654321" "Alice" "P1";
     StartGame "654321" 1000;
     NextQuestion "654321" 2000] ∅.

(** Three players have answered options 0, 1 and 1 to a question whose
    correct option is 1. *)
Definition sample_answered_state : GameState :=
  mkGameState "session-1" "quiz-1" "host-1" SHOWING_QUESTION 1
    [("P1", Player.mk "P1" "Alice" 0); ("P2", Player.mk "P2" "Bob" 1400);
     ("P3", Player.mk "P3" "Carol" 1300)]
    [("P1", Answer.mk "P1" 0 3000); ("P2", Answer.mk "P2" 1 6000);
     ("P3", Answer.mk "P3" 1 12000)]
    (Some 5000) (Some 1000).

Definition sample_answered : Redis :=
  {[ session_key "123456" := sample_answered_state ]}.

(** Fifteen players with the scores 0, 100, ..., 1400 of the engine's
    leaderboard test. *)
Definition sample_crowd : JsObject.t Player.t :=
  map (fun i : nat =>
         let name := String (Ascii.ascii_of_nat (65 + i)) EmptyString in
         (name, Player.mk name name (Z.of_nat i * 100)))
      (seq 0 15).

Definition sample_crowd_state : GameState :=
  mkGameState "session-1" "quiz-1" "host-1" WAITING (-1) sample_crowd [] None None.

Definition sample_crowded : Redis :=
  {[ session_key "123456" := sample_crowd_state ]}.

(** Alice and Bob answer the first sample question correctly, three and
    three and a half seconds after it was put up. *)
Definition alice_call : SubmitCall := mkSubmitCall "123456" "P1" 0 5000.
Definition bob_call : SubmitCall := mkSubmitCall "123456" "P2" 0 5500.

(** ** Keys of objects used as maps

    [JsObject] is the JavaScript object for keys that are neither made of
    decimal digits (array indices are enumerated first, in numeric
    order) nor names of members of [Object.prototype] (which a property
    read finds on every object, and of which [__proto__] cannot be
    assigned as a key). *)

Definition decimal (k : string) : bool :=
  negb (String.eqb k "") &&
  forallb (fun c => (48 <=? Ascii.nat_of_ascii c)%nat && (Ascii.nat_of_ascii c <=? 57)%nat)
    (String.list_ascii_of_string k).

Definition Object_prototype : list string :=
  ["constructor"; "__defineGetter__"; "__defineSetter__"; "hasOwnProperty";
   "__lookupGetter__"; "__lookupSetter__"; "isPrototypeOf";
   "propertyIsEnumerable"; "toString"; "valueOf"; "__proto__"; "toLocaleString"].

Definition ordinary_key (k : string) : bool :=
  negb (decimal k) && negb (bool_decide (k ∈ Object_prototype)).

(** ** Further notions about the engine

    [createSession] is looked at for join codes that hold no session:
    for a code in use the insert of the Prisma row decides whether the
    call goes through (see the session ledger below). *)

Section EngineNotions.

Variable findQuiz : string -> option (list Question.t).

(** The [Error] that the call of a command throws, if it throws. *)
Definition thrown (c : Command) (db : Redis) : option EngineError :=
  let error_of {A} (r : EngineError + A) : option EngineError :=
    match r with inl e => Some e | inr _ => None end in
  match c with
  | CreateSession q h jc sid => error_of (outcome (createSession q h jc sid) db)
  | JoinSession jc nick pid => error_of (outcome (joinSession jc nick pid) db)
  | StartGame jc now => error_of (outcome (startGame jc now) db)
  | NextQuestion jc now => error_of (outcome (nextQuestion findQuiz jc now) db)
  | SubmitAnswer jc pid oi now =>
      error_of (outcome (submitAnswer findQuiz jc pid oi now) db)
  | ShowResults jc => error_of (outcome (showResults findQuiz jc) db)
  | EndGame jc => error_of (outcome (endGame jc) db)
  end.

(** The join code that a command names. *)
Definition command_joinCode (c : Command) : string :=
  match c with
  | CreateSession _ _ jc _ | JoinSession jc _ _ | StartGame jc _
  | NextQuestion jc _ | SubmitAnswer jc _ _ _ | ShowResults jc
  | EndGame jc => jc
  end.

(** A history that opens no new session under [key]. *)
Definition same_session (key : string) (cs : list Command) : Prop :=
  Forall (fun c => replaces c key = false) cs.

(** Every entry of the roster and of the answers stands under its own
    id, and no id stands twice. *)
Record keyed (st : GameState) : Prop := mk_keyed {
  keyed_players :
    Forall (fun kv => Player.id (snd kv) = fst kv) (players st);
  keyed_answers :
    Forall (fun kv => Answer.playerId (snd kv) = fst kv) (answers st);
  nodup_players : NoDup (JsObject.keys (players st));
  nodup_answers : NoDup (JsObject.keys (answers st))
}.

(** What the status says about the rest of a stored state. *)
Record phase_inv (st : GameState) : Prop := mk_phase_inv {
  phase_before_first :
    status st = WAITING \/ status st = ACTIVE -> currentQuestionIndex st = -1;
  phase_lobby :
    status st = WAITING ->
    answers st = JsObject.empty /\ startTime st = None /\ questionStartTime st = None;
  phase_active : status st = ACTIVE -> is_Some (startTime st);
  phase_timed : 0 <= currentQuestionIndex st -> is_Some (questionStartTime st);
  phase_asking :
    status st = SHOWING_QUESTION \/ status st = SHOWING_RESULTS ->
    is_Some (current_question findQuiz st)
}.

Definition store_wf (db : Redis) : Prop :=
  forall k st, db !! k = Some st -> keyed st /\ phase_inv st.

(** The players of a given score, in the order of the list. *)
Definition with_score (s : Z) (l : list Player.t) : list Player.t :=
  List.filter (fun p => bool_decide (Player.score p = s)) l.

(** *** Calls that overlap

    Every writing operation reads Redis once, at its first [await]
    ([redis.get]; [createSession] reads nothing), and writes it at most
    once, at its [redis.set]; the catalog and ledger queries awaited in
    between do not touch Redis.  Calls of different connections
    interleave at these [await]s and nothing in the engine orders them.
    [write_of c db] is the state that a call of [c] will [SET] under its
    key when Redis serves its [GET] from [db]; a call that throws, and
    [startGame] or [endGame] on a missing session, write nothing. *)
Definition write_of (c : Command) (db : Redis) : option GameState :=
  match thrown c db with
  | Some _ => None
  | None => run findQuiz c db !! command_key c
  end.

(** Redis and the writes of the calls in flight (served, not yet
    written), oldest first. *)
Record World : Type := mkWorld {
  w_redis : Redis;
  w_writes : list (string * GameState)
}.

(** Redis serves the [GET] of a new call, or the [SET] of the [n]-th
    call in flight reaches Redis. *)
Inductive Move : Type :=
| Begin (c : Command)
| Land (n : nat).

Definition move (w : World) (m : Move) : World :=
  match m with
  | Begin c =>
      match write_of c (w_redis w) with
      | Some st => mkWorld (w_redis w) (w_writes w ++ [(command_key c, st)])
      | None => w
      end
  | Land n =>
      match w_writes w !! n with
      | Some (key, st) => mkWorld (<[key := st]> (w_redis w)) (delete n (w_writes w))
      | None => w
      end
  end.

Definition overlapped (ms : list Move) (db : Redis) : World :=
  fold_left move ms (mkWorld db []).

(** Calls that run one after the other: each call writes before the
    next is served. *)
Definition one_by_one (cs : list Command) : list Move :=
  flat_map (fun c => [Begin c; Land 0%nat]) cs.

(** The stores that calls, overlapping or not, can leave in a Redis that
    was empty. *)
Definition attainable (db : Redis) : Prop :=
  exists ms, w_redis (overlapped ms ∅) = db.

(** No call begun in the history opens a new session under [key]. *)
Definition same_session_moves (key : string) (ms : list Move) : Prop :=
  Forall (fun m => match m with
                   | Begin c => replaces c key = false
                   | Land _ => True
                   end) ms.

(** The operations that raise errors of their own. *)
Definition raises (c : Command) : bool :=
  match c with
  | JoinSession _ _ _ | NextQuestion _ _ | SubmitAnswer _ _ _ _ | ShowResults _ => true
  | CreateSession _ _ _ _ | StartGame _ _ | EndGame _ => false
  end.

(** *** The session ledger

    [createSession], [startGame], [endGame] and, once the questions are
    used up, [nextQuestion] await a write to the Prisma session row.  The
    engine never reads the row back: to the call the write either
    resolves or rejects, and a rejection is thrown out of the operation.
    [ledger] is the reason of the rejection, if the write rejects. *)
Inductive Failure : Type :=
| engine_error (e : EngineError)
| ledger_rejected (reason : string).

Definition Ledgered (A : Type) : Type := Redis -> (Failure + A) * Redis.

Definition own {A} (m : Engine A) : Ledgered A :=
  fun db =>
    match m db with
    | (inl e, db') => (inl (engine_error e), db')
    | (inr a, db') => (inr a, db')
    end.

Definition resolved {A} (a : A) : Ledgered A := fun db => (inr a, db).

Definition and_then {A B} (m : Ledgered A) (k : A -> Ledgered B) : Ledgered B :=
  fun db =>
    match m db with
    | (inl f, db') => (inl f, db')
    | (inr a, db') => k a db'
    end.

(** [await prisma.session.create(...)] and [await
    prisma.session.update(...)] *)
Definition prisma_session (ledger : option string) : Ledgered unit :=
  fun db =>
    match ledger with
    | Some reason => (inl (ledger_rejected reason), db)
    | None => (inr tt, db)
    end.


Definition startGame_ledgered (ledger : option string)
    (joinCode : string) (now : Z) : Ledgered (option GameState) :=
  and_then (own (getSession joinCode)) (fun state =>
  match state with
  | None => resolved None
  | Some state =>
      let state := set_status ACTIVE state in
      let state := set_startTime (Some now) state in
      let state := set_currentQuestionIndex (-1) state in
      and_then (own (redis_set (session_key joinCode) state)) (fun _ =>
      and_then (prisma_session ledger) (fun _ =>
      resolved (Some state)))
  end).



End EngineNotions.

(** ** The realtime gateway (server.ts)

    One connection is a [Socket]: the rooms it has joined through
    [socket.join] and the two fields of [socket.data].  A handler runs one
    inbound command against the engine inside [try { ... } catch (e)] and
    produces, in this order, its emissions: [io.to(room).emit(...)],
    [socket.emit(...)] and the acknowledgement [callback(...)]. *)

Record Socket : Type := mkSocket {
  rooms : gset string;
  data_joinCode : option string;
  data_playerId : option string
}.

(** A connection as [io.on("connection", ...)] receives it. *)
Definition connected : Socket := mkSocket ∅ None None.

Inductive ServerEvent : Type :=
| player_joined (playerId nickname : string) (score : Z)
| game_started
| question_start (questionIndex totalQuestions : Z) (text : string)
    (options : list string) (timeLimit : Z)
| game_ended (leaderboard : list Player.t)
| answer_count_update (answerCount totalPlayers : Z)
| answer_result (correct : bool) (score : Z)
| question_results (correctOptionIndex : Z) (answerDistribution : list Z)
    (correctCount : Z)
| leaderboard_update (leaderboard : list Player.t)
| player_disconnected (playerId : string).

(** The object passed to [callback]: [{ success: false, error }] or
    [{ success: true, ... }] with the fields of the command. *)
Inductive Reply : Type :=
| failure (error : string)
| created (joinCode : string)
| joined (state : GameState)
| started
| asked (question : Question.t) (totalQuestions questionIndex : Z)
| ended (leaderboard : list Player.t)
| answered (correct : bool) (score : Z)
| results (r : ShowResultsReply)
| leaderboard_reply (leaderboard : list Player.t).

Inductive Output : Type :=
| Broadcast (room : string) (e : ServerEvent)
| Direct (e : ServerEvent)
| Callback (reply : Reply).

Record Handled : Type := mkHandled {
  outputs : list Output;
  socket_after : Socket;
  redis_after : Redis
}.

(** [socket.join(room)] *)
Definition socket_join (room : string) (s : Socket) : Socket :=
  mkSocket ({[ room ]} ∪ rooms s) (data_joinCode s) (data_playerId s).

(** A string in a condition: the empty string is falsy, as is
    [undefined]. *)
Definition truthy (s : option string) : bool :=
  match s with
  | Some s => negb (String.eqb s "")
  | None => false
  end.

(** [catch (e: any) { callback({ success: false, error: e.message }) }] *)
Definition caught (e : EngineError) (s : Socket) (db : Redis) : Handled :=
  mkHandled [Callback (failure (message e))] s db.

Section Gateway.

Variable findQuiz : string -> option (list Question.t).

Definition on_create_game (quizId0 hostId0 : string)
    (joinCode newSessionId : string) (s : Socket) (db : Redis) : Handled :=
  match createSession quizId0 hostId0 joinCode newSessionId db with
  | (inr joinCode, db) =>
      mkHandled [Callback (created joinCode)] (socket_join joinCode s) db
  | (inl e, db) => caught e s db
  end.

Definition on_join_game (joinCode nickname playerId : string)
    (s : Socket) (db : Redis) : Handled :=
  match joinSession joinCode nickname playerId db with
  | (inr state, db) =>
      let s := socket_join joinCode s in
      let s := mkSocket (rooms s) (Some joinCode) (Some playerId) in
      mkHandled
        [Broadcast joinCode (player_joined playerId nickname 0);
         Callback (joined state)]
        s db
  | (inl e, db) => caught e s db
  end.

Definition on_start_game (joinCode : string) (now : Z)
    (s : Socket) (db : Redis) : Handled :=
  match startGame joinCode now db with
  | (inr _, db) =>
      mkHandled [Broadcast joinCode game_started; Callback started] s db
  | (inl e, db) => caught e s db
  end.

Definition on_next_question (joinCode : string) (now : Z)
    (s : Socket) (db : Redis) : Handled :=
  match nextQuestion findQuiz joinCode now db with
  | (inr r, db) =>
      match question r with
      | Some q =>
          mkHandled
            [Broadcast joinCode
               (question_start (currentQuestionIndex (nq_state r)) (totalQuestions r)
                  (Question.text q) (Question.options q) (Question.timeLimit q));
             Callback (asked q (totalQuestions r) (currentQuestionIndex (nq_state r)))]
            s db
      | None =>
          match getLeaderboard joinCode db with
          | (inr leaderboard, db) =>
              mkHandled
                [Broadcast joinCode (game_ended leaderboard);
                 Callback (ended leaderboard)]
                s db
          | (inl e, db) => caught e s db
          end
      end
  | (inl e, db) => caught e s db
  end.

Definition on_submit_answer (joinCode playerId : string) (optionIndex now : Z)
    (s : Socket) (db : Redis) : Handled :=
  match submitAnswer findQuiz joinCode playerId optionIndex now db with
  | (inr (correct, score), db) =>
      match getSession joinCode db with
      | (inr state, db) =>
          let answerCount :=
            match state with
            | Some state => Z.of_nat (length (JsObject.keys (answers state)))
            | None => 0
            end in
          let totalPlayers :=
            match state with
            | Some state => Z.of_nat (length (JsObject.keys (players state)))
            | None => 0
            end in
          mkHandled
            [Broadcast joinCode (answer_count_update answerCount totalPlayers);
             Callback (answered correct score);
             Direct (answer_result correct score)]
            s db
      | (inl e, db) => caught e s db
      end
  | (inl e, db) => caught e s db
  end.

Definition on_show_results (joinCode : string) (s : Socket) (db : Redis) : Handled :=
  match showResults findQuiz joinCode db with
  | (inr r, db) =>
      mkHandled
        [Broadcast joinCode
           (question_results (sr_correctOptionIndex r) (answerDistribution r)
              (correctCount r));
         Callback (results r)]
        s db
  | (inl e, db) => caught e s db
  end.

Definition on_get_leaderboard (joinCode : string) (s : Socket) (db : Redis) : Handled :=
  match getLeaderboard joinCode db with
  | (inr leaderboard, db) =>
      mkHandled
        [Broadcast joinCode (leaderboard_update leaderboard);
         Callback (leaderboard_reply leaderboard)]
        s db
  | (inl e, db) => caught e s db
  end.

Definition on_disconnect (s : Socket) (db : Redis) : Handled :=
  match data_joinCode s, data_playerId s with
  | Some joinCode, Some playerId =>
      if truthy (Some joinCode) && truthy (Some playerId)
      then mkHandled [Broadcast joinCode (player_disconnected playerId)] s db
      else mkHandled [] s db
  | _, _ => mkHandled [] s db
  end.

(** The commands a client can send, with the values the handler draws
    from its environment. *)
Inductive Inbound : Type :=
| create_game (quizId0 hostId0 : string) (joinCode newSessionId : string)
| join_game (joinCode nickname playerId : string)
| start_game (joinCode : string) (now : Z)
| next_question (joinCode : string) (now : Z)
| submit_answer (joinCode playerId : string) (optionIndex now : Z)
| show_results (joinCode : string)
| get_leaderboard (joinCode : string)
| disconnect.

Definition handle (m : Inbound) (s : Socket) (db : Redis) : Handled :=
  match m with
  | create_game q h jc sid => on_create_game q h jc sid s db
  | join_game jc nick pid => on_join_game jc nick pid s db
  | start_game jc now => on_start_game jc now s db
  | next_question jc now => on_next_question jc now s db
  | submit_answer jc pid oi now => on_submit_answer jc pid oi now s db
  | show_results jc => on_show_results jc s db
  | get_leaderboard jc => on_get_leaderboard jc s db
  | disconnect => on_disconnect s db
  end.

(** The acknowledgements among the outputs. *)
Definition callbacks (out : list Output) : list Reply :=
  omap (fun o => match o with Callback r => Some r | _ => None end) out.

(** The rooms that the outputs are broadcast to. *)
Definition broadcast_rooms (out : list Output) : list string :=
  omap (fun o => match o with Broadcast room _ => Some room | _ => None end) out.

(** The engine call that a command makes first, when it makes one. *)
Definition engine_call (m : Inbound) : option Command :=
  match m with
  | create_game q h jc sid => Some (CreateSession q h jc sid)
  | join_game jc nick pid => Some (JoinSession jc nick pid)
  | start_game jc now => Some (StartGame jc now)
  | next_question jc now => Some (NextQuestion jc now)
  | submit_answer jc pid oi now => Some (SubmitAnswer jc pid oi now)
  | show_results jc => Some (ShowResults jc)
  | get_leaderboard _ | disconnect => None
  end.

End Gateway.

(** The join code named in the payload of a command. *)
Definition inbound_joinCode (m : Inbound) : option string :=
  match m with
  | create_game _ _ jc _ | join_game jc _ _ | start_game jc _
  | next_question jc _ | submit_answer jc _ _ _ | show_results jc
  | get_leaderboard jc => Some jc
  | disconnect => None
  end.

(** ** More sample data *)

(** A session whose quiz the catalog does not know. *)
Definition sample_orphan_state : GameState :=
  mkGameState "session-9" "quiz-gone" "host-1" ACTIVE (-1)
    [("P1", Player.mk "P1" "Alice" 0)] [] None (Some 1000).

Definition sample_orphan : Redis :=
  {[ session_key "777777" := sample_orphan_state ]}.

(** Calls of another game, under the join code 654321. *)
Definition other_game : list Command :=
  [CreateSession "quiz-1" "host-2" "654321" "session-2";
   JoinSession "654321" "Zoe" "P1";
   StartGame "654321" 1500;
   NextQuestion "654321" 2500;
   SubmitAnswer "654321" "P1" 0 3000;
   ShowResults "654321";
   EndGame "654321"].

(** The rest of a game after its first question is up. *)
Definition sample_rest_of_game : list Command :=
  [SubmitAnswer "123456" "P1" 0 5000;
   ShowResults "123456";
   NextQuestion "123456" 9000;
   EndGame "123456";
   StartGame "123456" 9500].

(** The sample game up to its first question, call after call, and then
    the answers of Alice and Bob both served before either is written. *)
Definition sample_two_in_flight : list Move :=
  (one_by_one
     [CreateSession "quiz-1" "host-1" "123456" "session-1";
      JoinSession "123456" "Alice" "P1";
      JoinSession "123456" "Bob" "P2";
      StartGame "123456" 1000;
      NextQuestion "123456" 2000]
   ++ [Begin (SubmitAnswer "123456" "P1" 0 5000);
       Begin (SubmitAnswer "123456" "P2" 0 5500)])%list.

(** * Properties *)

(** ** Objects used as maps *)

Lemma JsObject_get_set_eq {V} (o : JsObject.t V) k v :
  JsObject.get (JsObject.set o k v) k = Some v.
Proof.
  induction o as [|[k' v'] o IH]; simpl.
  - by rewrite decide_True.
  - destruct (decide (k' = k)) as [->|Hne]; simpl.
    + by rewrite decide_True.
    + by rewrite decide_False.
Qed.

Lemma JsObject_get_set_ne {V} (o : JsObject.t V) k k' v :
  k <> k' -> JsObject.get (JsObject.set o k v) k' = JsObject.get o k'.
Proof.
  intros Hne. induction o as [|[k0 v0] o IH]; simpl.
  - by rewrite decide_False.
  - destruct (decide (k0 = k)) as [->|Hk]; simpl.
    + by rewrite !decide_False.
    + destruct (decide (k0 = k')); [done | apply IH].
Qed.

Lemma JsObject_get_In {V} (o : JsObject.t V) k v :
  JsObject.get o k = Some v -> In v (JsObject.values o).
Proof.
  induction o as [|[k' v'] o IH]; simpl; [done|].
  destruct (decide (k' = k)).
  - intros [= ->]. by left.
  - intros H. right. by apply IH.
Qed.

Lemma JsObject_values_set_fresh {V} (o : JsObject.t V) k v :
  JsObject.get o k = None ->
  JsObject.values (JsObject.set o k v) = (JsObject.values o ++ [v])%list.
Proof.
  induction o as [|[k' v'] o IH]; simpl; [done|].
  destruct (decide (k' = k)); [done|].
  intros H. unfold JsObject.values in *. simpl. f_equal. by apply IH.
Qed.

Lemma JsObject_Forall_set {V} (P : V -> Prop) (o : JsObject.t V) k v :
  Forall P (JsObject.values o) -> P v ->
  Forall P (JsObject.values (JsObject.set o k v)).
Proof.
  intros Ho Hv. induction o as [|[k' v'] o IH]; simpl.
  - by constructor.
  - unfold JsObject.values in *. simpl in Ho. inversion Ho; subst.
    destruct (decide (k' = k)); simpl; constructor; auto.
Qed.

(** ** Scoring arithmetic *)

Lemma Math_round_Z (n : Z) : Math_round (inject_Z n) = n.
Proof.
  unfold Math_round.
  assert (Hlo : (n <= Qfloor (inject_Z n + (1 # 2)))%Z).
  { rewrite <- (Qfloor_Z n) at 1. apply Qfloor_resp_le. lra. }
  assert (Hhi : (Qfloor (inject_Z n + (1 # 2)) < n + 1)%Z).
  { apply Z.lt_nge. intros Hge.
    pose proof (Qfloor_le (inject_Z n + (1 # 2))) as Hf.
    rewrite Zle_Qle, inject_Z_plus in Hge.
    change (inject_Z 1) with 1%Q in Hge. lra. }
  lia.
Qed.

Lemma Math_round_mono (x y : Q) : (x <= y)%Q -> Math_round x <= Math_round y.
Proof. intros H. apply Qfloor_resp_le. lra. Qed.



Lemma timeBonus_nonneg rt tl : (0 <= timeBonus rt tl)%Q.
Proof. unfold timeBonus. apply Q.le_max_l. Qed.






Lemma score_points_floor rt tl : 1000 <= score_points true rt tl.
Proof.
  unfold score_points. pose proof (timeBonus_nonneg rt tl).
  rewrite <- (Math_round_Z 1000) at 1. apply Math_round_mono.
  unfold inject_Z. lra.
Qed.





Lemma score_points_nonneg c rt tl : 0 <= score_points c rt tl.
Proof.
  destruct c; [|done]. pose proof (score_points_floor rt tl). lia.
Qed.

(** ** The engine *)

Ltac unfold_engine :=
  unfold outcome, stored, submitAnswer, submitAnswer_resume, joinSession,
    startGame, nextQuestion, showResults, getLeaderboard, endGame,
    createSession, getSession, bind, ret, throw, redis_get, redis_set in *.

Section EngineFacts.

Variable findQuiz : string -> option (list Question.t).

(** A call that passes the four checks of [submitAnswer] stores the
    answer and the new score under the session key and returns
    [correct] and [points]. *)
Lemma submitAnswer_accepts db joinCode playerId optionIndex now st q :
  db !! session_key joinCode = Some st ->
  status st = SHOWING_QUESTION ->
  JsObject.get (answers st) playerId = None ->
  current_question findQuiz st = Some q ->
  let responseTimeMs := now - or_now (questionStartTime st) now in
  let correct := bool_decide (optionIndex = Question.correctOptionIndex q) in
  let points := score_points correct responseTimeMs (Question.timeLimit q) in
  submitAnswer findQuiz joinCode playerId optionIndex now db =
    (inr (correct, points),
     <[session_key joinCode :=
         set_players (add_score (players st) playerId points)
           (set_answers
              (JsObject.set (answers st) playerId
                 (Answer.mk playerId optionIndex responseTimeMs)) st)]> db).
Proof.
  intros Hdb Hst Hans Hq. unfold current_question in Hq.
  unfold_engine. rewrite Hdb. simpl.
  rewrite decide_False by (by rewrite Hst; intros []).
  rewrite Hans, Hq. reflexivity.
Qed.

(** A call succeeds only if it passes the four checks. *)
Lemma submitAnswer_success_conditions db joinCode playerId optionIndex now r :
  outcome (submitAnswer findQuiz joinCode playerId optionIndex now) db = inr r ->
  exists st q,
    db !! session_key joinCode = Some st /\
    status st = SHOWING_QUESTION /\
    JsObject.get (answers st) playerId = None /\
    current_question findQuiz st = Some q.
Proof.
  unfold_engine. destruct (db !! session_key joinCode) as [st|]; simpl; [|done].
  case_decide as Hst; simpl; [done|].
  destruct (JsObject.get _ _) eqn:Hans; simpl; [done|].
  destruct (array_get _ _) as [q|] eqn:Hq; simpl; [|done].
  intros _. exists st, q. split; [done|]. split; [|done].
  by destruct (decide (status st = SHOWING_QUESTION)).
Qed.



(** The three ways in which [submitAnswer] rejects a call before it
    looks up the question; none of them writes to Redis. *)
Lemma submitAnswer_not_found db joinCode playerId optionIndex now :
  db !! session_key joinCode = None ->
  submitAnswer findQuiz joinCode playerId optionIndex now db
    = (inl SessionNotFound, db).
Proof. intros Hdb. unfold_engine. by rewrite Hdb. Qed.

Lemma submitAnswer_wrong_phase db joinCode playerId optionIndex now st :
  db !! session_key joinCode = Some st ->
  status st <> SHOWING_QUESTION ->
  submitAnswer findQuiz joinCode playerId optionIndex now db
    = (inl NotAcceptingAnswers, db).
Proof.
  intros Hdb Hst. unfold_engine. rewrite Hdb. simpl.
  by rewrite decide_True.
Qed.

Lemma submitAnswer_duplicate db joinCode playerId optionIndex now st :
  db !! session_key joinCode = Some st ->
  status st = SHOWING_QUESTION ->
  is_Some (JsObject.get (answers st) playerId) ->
  submitAnswer findQuiz joinCode playerId optionIndex now db
    = (inl AlreadyAnswered, db).
Proof.
  intros Hdb Hst [a Ha]. unfold_engine. rewrite Hdb. simpl.
  rewrite decide_False by (by rewrite Hst; intros []).
  by rewrite Ha.
Qed.

Lemma stored_score_add db joinCode playerId st ps points :
  db !! session_key joinCode = Some st ->
  stored_score
    (<[session_key joinCode :=
         set_players (add_score (players st) playerId points) ps]> db)
    joinCode playerId
  = (fun s => s + points) <$> stored_score db joinCode playerId.
Proof.
  intros Hdb. unfold stored_score. rewrite lookup_insert_eq, Hdb. simpl.
  unfold add_score. destruct (JsObject.get (players st) playerId) as [p|] eqn:Hp.
  - by rewrite JsObject_get_set_eq.
  - by rewrite Hp.
Qed.

(** C5. [submitAnswer] throws "Session not found" exactly when Redis
    holds no state for the join code; it throws "Not accepting answers"
    when the state exists with a status other than SHOWING_QUESTION; it
    throws "Already answered" when, in SHOWING_QUESTION, the player's
    answer is set; these rejections write nothing.  When a player calls
    it twice in one question phase the first call succeeds, the second
    throws "Already answered" and the stored score is the old score plus
    the points of the first call (for a question with a time limit of at
    least one second). *)
Theorem submitAnswer_failures db joinCode playerId optionIndex now :
  (outcome (submitAnswer findQuiz joinCode playerId optionIndex now) db
     = inl SessionNotFound
   <-> db !! session_key joinCode = None) /\
  (forall st,
     db !! session_key joinCode = Some st ->
     status st <> SHOWING_QUESTION ->
     outcome (submitAnswer findQuiz joinCode playerId optionIndex now) db
       = inl NotAcceptingAnswers /\
     message NotAcceptingAnswers = "Not accepting answers" /\
     stored (submitAnswer findQuiz joinCode playerId optionIndex now) db = db) /\
  (forall st,
     db !! session_key joinCode = Some st ->
     status st = SHOWING_QUESTION ->
     is_Some (JsObject.get (answers st) playerId) ->
     outcome (submitAnswer findQuiz joinCode playerId optionIndex now) db
       = inl AlreadyAnswered /\
     message AlreadyAnswered = "Already answered" /\
     stored (submitAnswer findQuiz joinCode playerId optionIndex now) db = db) /\
  (forall st q,
     db !! session_key joinCode = Some st ->
     status st = SHOWING_QUESTION ->
     JsObject.get (answers st) playerId = None ->
     current_question findQuiz st = Some q ->
     1 <= Question.timeLimit q ->
     exists correct points,
       outcome (submitAnswer findQuiz joinCode playerId optionIndex now) db
         = inr (correct, points) /\
       let db1 := stored (submitAnswer findQuiz joinCode playerId optionIndex now) db in
       forall optionIndex' now',
         outcome (submitAnswer findQuiz joinCode playerId optionIndex' now') db1
           = inl AlreadyAnswered /\
         let db2 :=
           stored (submitAnswer findQuiz joinCode playerId optionIndex' now') db1 in
         db2 = db1 /\
         stored_score db2 joinCode playerId
           = (fun s => s + points) <$> stored_score db joinCode playerId).
Proof.
  split; [|split; [|split]].
  - split.
    + destruct (db !! session_key joinCode) as [st|] eqn:Hdb; [|done].
      unfold_engine. rewrite Hdb. simpl.
      repeat case_match; simpl; discriminate.
    + intros Hdb. unfold outcome. by rewrite submitAnswer_not_found.
  - intros st Hdb Hst. unfold outcome, stored.
    by rewrite (submitAnswer_wrong_phase _ _ _ _ _ st).
  - intros st Hdb Hst Hans. unfold outcome, stored.
    by rewrite (submitAnswer_duplicate _ _ _ _ _ st).
  - intros st q Hdb Hst Hans Hq _. eexists _, _. unfold outcome, stored.
    rewrite (submitAnswer_accepts db joinCode playerId optionIndex now st q)
      by assumption.
    simpl. split; [reflexivity|].
    intros optionIndex' now'.
    erewrite submitAnswer_duplicate; simpl.
    + split; [reflexivity|]. split; [reflexivity|].
      by apply stored_score_add.
    + apply lookup_insert_eq.
    + exact Hst.
    + simpl. rewrite JsObject_get_set_eq. by eexists.
Qed.

(** ** Invariants of the stored sessions *)

Lemma array_get_Some_lt {A} (l : list A) i x :
  array_get l i = Some x -> 0 <= i < Z.of_nat (length l).
Proof.
  unfold array_get. case_decide as Hi; [|done].
  intros Hl%lookup_lt_Some. lia.
Qed.

Lemma array_get_None_ge {A} (l : list A) i :
  0 <= i -> array_get l i = None -> Z.of_nat (length l) <= i.
Proof.
  unfold array_get. intros Hi. rewrite decide_True by done.
  intros Hl%lookup_ge_None. lia.
Qed.

Lemma store_inv_insert db k st :
  store_inv findQuiz db -> session_inv findQuiz st -> store_inv findQuiz (<[k := st]> db).
Proof.
  intros Hdb Hst k' st'. rewrite lookup_insert. case_decide.
  - by intros [= <-].
  - apply Hdb.
Qed.

Lemma run_store_inv c db :
  store_inv findQuiz db -> store_inv findQuiz (run findQuiz c db).
Proof.
  intros Hdb. destruct c; unfold run; unfold_engine; simpl.
  - (* createSession *)
    apply store_inv_insert; [done|].
    constructor; simpl; try done.
    + unfold questionCount. simpl. lia.
    + intros _. constructor.
  - (* joinSession *)
    destruct (db !! session_key joinCode) as [st|] eqn:Hk; simpl; [|done].
    case_decide as Hst; simpl; [done|].
    destruct (Hdb _ _ Hk) as [H1 H2 H3 H4].
    apply store_inv_insert; [done|].
    constructor; simpl; try done.
    intros _. apply JsObject_Forall_set; [by apply H3|done].
  - (* startGame *)
    destruct (db !! session_key joinCode) as [st|] eqn:Hk; simpl; [|done].
    apply store_inv_insert; [done|].
    constructor; simpl; try done.
    unfold questionCount. simpl. lia.
  - (* nextQuestion *)
    destruct (db !! session_key joinCode) as [st|] eqn:Hk; simpl; [|done].
    destruct (Hdb _ _ Hk) as [H1 H2 H3 H4].
    apply store_inv_insert; [done|].
    destruct (array_get _ _) as [q|] eqn:Hq; constructor; simpl; try done;
      try lia.
    unfold questionCount. simpl. apply array_get_Some_lt in Hq. lia.
  - (* submitAnswer *)
    destruct (db !! session_key joinCode) as [st|] eqn:Hk; simpl; [|done].
    case_decide as Hst; simpl; [done|].
    destruct (Hdb _ _ Hk) as [H1 H2 H3 H4].
    destruct (JsObject.get _ _); simpl; [done|].
    destruct (array_get _ _) as [q|] eqn:Hq; simpl; [|done].
    apply store_inv_insert; [done|].
    constructor; simpl; try done.
    by rewrite Hst.
  - (* showResults *)
    destruct (db !! session_key joinCode) as [st|] eqn:Hk; simpl; [|done].
    destruct (Hdb _ _ Hk) as [H1 H2 H3 H4].
    destruct (array_get _ _) as [q|] eqn:Hq; simpl; [|done].
    destruct (fold_left _ _ _) as [dist cc]. simpl.
    apply store_inv_insert; [done|].
    constructor; simpl; try done.
    unfold questionCount. simpl. apply array_get_Some_lt in Hq. lia.
  - (* endGame *)
    destruct (db !! session_key joinCode) as [st|] eqn:Hk; simpl; [|done].
    destruct (Hdb _ _ Hk) as [H1 H2 H3 H4].
    apply store_inv_insert; [done|].
    constructor; simpl; done.
Qed.

Lemma reachable_store_inv db : reachable findQuiz db -> store_inv findQuiz db.
Proof.
  induction 1 as [|c db _ IH].
  - intros k st. by rewrite lookup_empty.
  - by apply run_store_inv.
Qed.

Lemma reachable_run_all cs db :
  reachable findQuiz db -> reachable findQuiz (run_all findQuiz cs db).
Proof.
  revert db. induction cs as [|c cs IH]; intros db Hdb; simpl; [done|].
  apply IH. by constructor.
Qed.

Lemma scores_kept_same st st' : players st' = players st -> scores_kept st st'.
Proof. intros Hps pid p Hp. exists p. rewrite Hps. split; [done|lia]. Qed.

Lemma scores_kept_add_score st st' playerId points :
  players st' = add_score (players st) playerId points ->
  0 <= points ->
  scores_kept st st'.
Proof.
  intros Hps Hpts pid p Hp. rewrite Hps. unfold add_score.
  destruct (JsObject.get (players st) playerId) as [p0|] eqn:Hp0.
  - destruct (decide (playerId = pid)) as [->|Hne].
    + rewrite JsObject_get_set_eq. eexists. split; [done|]. simpl.
      assert (p0 = p) as -> by congruence. lia.
    + rewrite JsObject_get_set_ne by done. exists p. split; [done|lia].
  - exists p. split; [done|lia].
Qed.

Lemma scores_kept_join st playerId nickname :
  scores_zero st ->
  scores_kept st
    (set_players (JsObject.set (players st) playerId (Player.mk playerId nickname 0)) st).
Proof.
  intros Hz pid p Hp. simpl.
  assert (Player.score p = 0) as Hp0.
  { unfold scores_zero in Hz. rewrite Forall_forall in Hz.
    apply Hz. apply list_elem_of_In. by eapply JsObject_get_In. }
  destruct (decide (playerId = pid)) as [->|Hne].
  - rewrite JsObject_get_set_eq. eexists. split; [done|]. simpl. lia.
  - rewrite JsObject_get_set_ne by done. exists p. split; [done|lia].
Qed.

(** One command, seen from a session that it does not replace: the
    session stays in the store with its quiz, its index moves as
    described and no score goes down. *)
Lemma run_step c db key st :
  store_inv findQuiz db ->
  db !! key = Some st ->
  replaces c key = false ->
  exists st',
    run findQuiz c db !! key = Some st' /\
    quizId st' = quizId st /\
    (if restarts c key
     then currentQuestionIndex st' = -1
     else currentQuestionIndex st <= currentQuestionIndex st') /\
    scores_kept st st'.
Proof.
  intros Hinv Hk Hrep.
  pose proof (Hinv _ _ Hk) as [H1 H2 H3 H4].
  assert (Hsame : exists st', db !! key = Some st' /\ quizId st' = quizId st /\
            currentQuestionIndex st <= currentQuestionIndex st' /\ scores_kept st st').
  { exists st. repeat split; [done|lia|by apply scores_kept_same]. }
  unfold replaces, restarts in *.
  destruct c; simpl in *; unfold_engine; simpl.
  - (* createSession *)
    apply bool_decide_eq_false in Hrep. by rewrite lookup_insert_ne.
  - (* joinSession *)
    destruct (decide (session_key joinCode = key)) as [->|Hne].
    + rewrite Hk. simpl. case_decide as Hst; simpl; [done|].
      rewrite lookup_insert_eq. eexists. split; [done|]. simpl.
      repeat split; [lia|]. apply scores_kept_join. auto.
    + destruct (db !! session_key joinCode); simpl; [|done].
      case_decide; simpl; [done|]. by rewrite lookup_insert_ne.
  - (* startGame *)
    case_bool_decide as Hkey.
    + subst key. rewrite Hk. simpl. rewrite lookup_insert_eq.
      eexists. split; [done|]. simpl. repeat split. by apply scores_kept_same.
    + destruct (db !! session_key joinCode); simpl; [|done].
      by rewrite lookup_insert_ne.
  - (* nextQuestion *)
    destruct (decide (session_key joinCode = key)) as [->|Hne].
    + rewrite Hk. simpl. rewrite lookup_insert_eq. eexists. split; [done|].
      destruct (array_get _ _); simpl; repeat split; try lia;
        by apply scores_kept_same.
    + destruct (db !! session_key joinCode); simpl; [|done].
      by rewrite lookup_insert_ne.
  - (* submitAnswer *)
    destruct (decide (session_key joinCode = key)) as [->|Hne].
    + rewrite Hk. simpl. case_decide; simpl; [done|].
      destruct (JsObject.get _ _); simpl; [done|].
      destruct (array_get _ _) as [q|]; simpl; [|done].
      rewrite lookup_insert_eq. eexists. split; [done|]. simpl.
      repeat split; [lia|].
      eapply scores_kept_add_score; [reflexivity|apply score_points_nonneg].
    + destruct (db !! session_key joinCode); simpl; [|done].
      case_decide; simpl; [done|].
      destruct (JsObject.get _ _); simpl; [done|].
      destruct (array_get _ _) as [q|]; simpl; [|done].
      by rewrite lookup_insert_ne.
  - (* showResults *)
    destruct (decide (session_key joinCode = key)) as [->|Hne].
    + rewrite Hk. simpl.
      destruct (array_get _ _) as [q|]; simpl; [|done].
      destruct (fold_left _ _ _). simpl.
      rewrite lookup_insert_eq. eexists. split; [done|]. simpl.
      repeat split; [lia|by apply scores_kept_same].
    + destruct (db !! session_key joinCode); simpl; [|done].
      destruct (array_get _ _) as [q|]; simpl; [|done].
      destruct (fold_left _ _ _). simpl.
      by rewrite lookup_insert_ne.
  - (* endGame *)
    destruct (decide (session_key joinCode = key)) as [->|Hne].
    + rewrite Hk. simpl. rewrite lookup_insert_eq. eexists. split; [done|].
      simpl. repeat split; [lia|by apply scores_kept_same].
    + destruct (db !! session_key joinCode); simpl; [|done].
      by rewrite lookup_insert_ne.
Qed.

(** ** Calls that overlap *)

(** A call is the reply to its [GET] turned into at most one [SET]. *)
Lemma run_write_of c db :
  run findQuiz c db =
    match write_of findQuiz c db with
    | Some st => <[command_key c := st]> db
    | None => db
    end.
Proof.
  unfold write_of.
  destruct c; simpl; unfold_engine; simpl;
    [|destruct (db !! session_key joinCode) as [st|] eqn:Hk; simpl ..].
  - by rewrite lookup_insert_eq.
  - case_decide; simpl; [done|]. by rewrite lookup_insert_eq.
  - done.
  - by rewrite lookup_insert_eq.
  - by rewrite Hk.
  - by rewrite lookup_insert_eq.
  - done.
  - case_decide; simpl; [done|].
    destruct (JsObject.get _ _); simpl; [done|].
    destruct (array_get _ _); simpl; [|done].
    by rewrite lookup_insert_eq.
  - done.
  - destruct (array_get _ _); simpl; [|done].
    destruct (fold_left _ _ _). simpl. by rewrite lookup_insert_eq.
  - done.
  - by rewrite lookup_insert_eq.
  - by rewrite Hk.
Qed.

Lemma write_of_reply c db db' :
  db !! command_key c = db' !! command_key c ->
  write_of findQuiz c db = write_of findQuiz c db'.
Proof.
  unfold write_of.
  destruct c; simpl; unfold_engine; simpl; intros Hreply;
    [|rewrite <- Hreply;
      destruct (db !! session_key joinCode) as [st|] eqn:Hk; simpl ..].
  - by rewrite !lookup_insert_eq.
  - case_decide; simpl; [done|]. by rewrite !lookup_insert_eq.
  - done.
  - by rewrite !lookup_insert_eq.
  - by rewrite Hk, <- Hreply.
  - by rewrite !lookup_insert_eq.
  - done.
  - case_decide; simpl; [done|].
    destruct (JsObject.get _ _); simpl; [done|].
    destruct (array_get _ _); simpl; [|done].
    by rewrite !lookup_insert_eq.
  - done.
  - destruct (array_get _ _); simpl; [|done].
    destruct (fold_left _ _ _). simpl. by rewrite !lookup_insert_eq.
  - done.
  - by rewrite !lookup_insert_eq.
  - by rewrite Hk, <- Hreply.
Qed.

Lemma overlapped_snoc ms m db :
  overlapped findQuiz (ms ++ [m])%list db = move findQuiz (overlapped findQuiz ms db) m.
Proof. unfold overlapped. by rewrite fold_left_app. Qed.

Lemma overlapped_app ms ms' db :
  overlapped findQuiz (ms ++ ms')%list db
  = fold_left (move findQuiz) ms' (overlapped findQuiz ms db).
Proof. unfold overlapped. by rewrite fold_left_app. Qed.

(** A call that runs alone is the operation on the store. *)
Lemma move_alone c db :
  move findQuiz (move findQuiz (mkWorld db []) (Begin c)) (Land 0)
  = mkWorld (run findQuiz c db) [].
Proof.
  rewrite run_write_of. simpl.
  destruct (write_of findQuiz c db); simpl; done.
Qed.

(** Overlap brings no new states: whatever calls in flight write was
    computed from a state that stood in Redis, so every state stored
    under a key, in any history, is also stored under that key in a
    history of calls that run one after the other. *)
Lemma overlapped_known ms :
  let w := overlapped findQuiz ms ∅ in
  (forall key st,
     w_redis w !! key = Some st ->
     exists db, reachable findQuiz db /\ db !! key = Some st) /\
  Forall (fun kst => exists db, reachable findQuiz db /\ db !! kst.1 = Some kst.2)
    (w_writes w).
Proof.
  induction ms as [|m ms IH] using rev_ind; simpl.
  - split; [|constructor]. intros key st. by rewrite lookup_empty.
  - rewrite overlapped_snoc. destruct IH as [IHr IHw].
    set (w := overlapped findQuiz ms ∅) in *.
    destruct m as [c|n]; simpl.
    + destruct (write_of findQuiz c (w_redis w)) as [st|] eqn:Hw; simpl; [|done].
      split; [done|]. apply Forall_app. split; [done|].
      constructor; [|constructor]. simpl.
      destruct (w_redis w !! command_key c) as [st0|] eqn:Hreply.
      * destruct (IHr _ _ Hreply) as (db0 & Hreach & Hdb0).
        exists (run findQuiz c db0). split; [by constructor|].
        rewrite run_write_of.
        rewrite (write_of_reply c db0 (w_redis w)) by congruence.
        rewrite Hw. apply lookup_insert_eq.
      * exists (run findQuiz c ∅). split; [constructor; constructor|].
        rewrite run_write_of.
        rewrite (write_of_reply c ∅ (w_redis w))
          by (by rewrite lookup_empty, Hreply).
        rewrite Hw. apply lookup_insert_eq.
    + destruct (w_writes w !! n) as [[key st]|] eqn:Hn; simpl; [|done].
      split.
      * intros key' st'. destruct (decide (key = key')) as [<-|Hne].
        -- rewrite lookup_insert_eq. intros [= <-].
           rewrite Forall_lookup in IHw. exact (IHw _ _ Hn).
        -- rewrite lookup_insert_ne by done. apply IHr.
      * by apply Forall_delete.
Qed.

Lemma attainable_store_inv db : attainable findQuiz db -> store_inv findQuiz db.
Proof.
  intros [ms <-] key st Hk.
  destruct (overlapped_known ms) as [Hknown _].
  destruct (Hknown _ _ Hk) as (db0 & Hreach & Hdb0).
  exact (reachable_store_inv db0 Hreach _ _ Hdb0).
Qed.

Lemma overlapped_one_by_one cs db :
  overlapped findQuiz (one_by_one cs) db = mkWorld (run_all findQuiz cs db) [].
Proof.
  revert db. induction cs as [|c cs IH]; intros db; [done|].
  change (one_by_one (c :: cs)) with ([Begin c; Land 0%nat] ++ one_by_one cs)%list.
  rewrite overlapped_app.
  change (overlapped findQuiz [Begin c; Land 0%nat] db)
    with (move findQuiz (move findQuiz (mkWorld db []) (Begin c)) (Land 0)).
  rewrite move_alone. apply IH.
Qed.

Lemma reachable_attainable db : reachable findQuiz db -> attainable findQuiz db.
Proof.
  intros Hreach.
  assert (exists ms, overlapped findQuiz ms ∅ = mkWorld db []) as [ms Hms].
  { induction Hreach as [|c db _ [ms Hms]].
    - by exists [].
    - exists (ms ++ [Begin c; Land 0])%list.
      rewrite overlapped_app, Hms. apply move_alone. }
  exists ms. by rewrite Hms.
Qed.

(** The writes of [submitAnswer] and of [nextQuestion]. *)
Lemma write_of_submitAnswer db joinCode playerId optionIndex now st q :
  db !! session_key joinCode = Some st ->
  status st = SHOWING_QUESTION ->
  JsObject.get (answers st) playerId = None ->
  current_question findQuiz st = Some q ->
  write_of findQuiz (SubmitAnswer joinCode playerId optionIndex now) db
  = Some (record_answer st q playerId optionIndex now).
Proof.
  intros Hk Hst Hans Hq. unfold write_of. simpl. unfold outcome, stored.
  rewrite (submitAnswer_accepts db joinCode playerId optionIndex now st q)
    by assumption.
  simpl. by rewrite lookup_insert_eq.
Qed.

Lemma write_of_nextQuestion db joinCode now st :
  db !! session_key joinCode = Some st ->
  exists st',
    write_of findQuiz (NextQuestion joinCode now) db = Some st' /\
    currentQuestionIndex st' = currentQuestionIndex st + 1.
Proof.
  intros Hk. unfold write_of. simpl. unfold_engine. rewrite Hk. simpl.
  rewrite lookup_insert_eq. eexists. split; [done|].
  by destruct (array_get _ _).
Qed.

(** C4 (amended). In every store that calls of the engine, overlapping
    or not, can leave, every session has [currentQuestionIndex >= -1],
    and an index at or beyond the number of questions goes with status
    ENDED.  A call that runs without another call writing in between,
    and that does not open a new session under the same key, leaves the
    index where it was or raises it, except [startGame] on that session,
    which sets it to -1.  No upper bound holds ([nextQuestion]
    increments the index on every call), and calls that overlap can
    lower the index: a [submitAnswer] that was served its [GET] before a
    [nextQuestion] and writes after it puts back the index it had read. *)
Theorem currentQuestionIndex_invariant db key st :
  attainable findQuiz db ->
  db !! key = Some st ->
  -1 <= currentQuestionIndex st /\
  (questionCount findQuiz st <= currentQuestionIndex st -> status st = ENDED) /\
  (forall c,
     replaces c key = false ->
     exists st',
       run findQuiz c db !! key = Some st' /\
       if restarts c key
       then currentQuestionIndex st' = -1
       else currentQuestionIndex st <= currentQuestionIndex st') /\
  (forall joinCode playerId optionIndex now now',
     session_key joinCode = key ->
     status st = SHOWING_QUESTION ->
     JsObject.get (answers st) playerId = None ->
     let calls :=
       [Begin (SubmitAnswer joinCode playerId optionIndex now);
        Begin (NextQuestion joinCode now')] in
     exists st1 st2,
       w_redis (overlapped findQuiz (calls ++ [Land 1])%list db) !! key = Some st1 /\
       currentQuestionIndex st1 = currentQuestionIndex st + 1 /\
       w_redis (overlapped findQuiz (calls ++ [Land 1; Land 0])%list db) !! key = Some st2 /\
       currentQuestionIndex st2 = currentQuestionIndex st).
Proof.
  intros Hreach Hk.
  pose proof (attainable_store_inv db Hreach) as Hinv.
  destruct (Hinv _ _ Hk) as [H1 H2 _ H4].
  split; [done|]. split; [done|]. split.
  - intros c Hc.
    destruct (run_step c db key st Hinv Hk Hc) as (st' & Hst' & _ & Hidx & _).
    by exists st'.
  - intros joinCode playerId optionIndex now now' <- Hst Hans calls.
    destruct (H4 Hst) as [q Hq].
    destruct (write_of_nextQuestion db joinCode now' st Hk) as (stn & Hn & Hidx).
    exists stn, (record_answer st q playerId optionIndex now).
    unfold calls, overlapped. simpl.
    rewrite (write_of_submitAnswer db joinCode playerId optionIndex now st q)
      by assumption.
    simpl. rewrite Hn. simpl.
    rewrite !lookup_insert_eq. done.
Qed.

Lemma joinSession_accepted_waiting db joinCode nickname playerId st r :
  db !! session_key joinCode = Some st ->
  outcome (joinSession joinCode nickname playerId) db = inr r ->
  status st = WAITING.
Proof.
  intros Hk. unfold_engine. rewrite Hk. simpl.
  case_decide; simpl; [discriminate|done].
Qed.

Lemma submitAnswer_points_nonneg db joinCode playerId optionIndex now correct points :
  outcome (submitAnswer findQuiz joinCode playerId optionIndex now) db
    = inr (correct, points) ->
  0 <= points.
Proof.
  unfold_engine. destruct (db !! session_key joinCode) as [st|]; simpl; [|done].
  case_decide; simpl; [done|].
  destruct (JsObject.get _ _); simpl; [done|].
  destruct (array_get _ _) as [q|]; simpl; [|done].
  intros [= _ <-]. apply score_points_nonneg.
Qed.

(** C8 (amended). With a catalog whose time limits are at least one
    second, no engine operation that runs without another call writing
    in between lowers the score of a player of a stored session: in every
    store that calls, overlapping or not, can leave, across every command
    that does not open a new session under the same key the player stays
    on the roster with a score at least as high; [submitAnswer] returns a
    number of points that is not negative; [joinSession], which writes
    score 0, is accepted only in WAITING, and in WAITING every score is
    0.  (Calls that overlap can lower a stored score.) *)
Theorem score_never_decreases db key st c :
  timeLimits_positive findQuiz ->
  attainable findQuiz db ->
  db !! key = Some st ->
  replaces c key = false ->
  (exists st', run findQuiz c db !! key = Some st' /\ scores_kept st st') /\
  (forall joinCode playerId optionIndex now correct points,
     outcome (submitAnswer findQuiz joinCode playerId optionIndex now) db
       = inr (correct, points) ->
     0 <= points) /\
  (forall joinCode nickname playerId r,
     session_key joinCode = key ->
     outcome (joinSession joinCode nickname playerId) db = inr r ->
     status st = WAITING) /\
  (status st = WAITING -> scores_zero st).
Proof.
  intros _ Hreach Hk Hc.
  pose proof (attainable_store_inv db Hreach) as Hinv.
  split; [|split; [|split]].
  - destruct (run_step c db key st Hinv Hk Hc) as (st' & Hst' & _ & _ & Hs).
    by exists st'.
  - intros. by eapply submitAnswer_points_nonneg.
  - intros joinCode nickname playerId r <- Hr.
    by eapply joinSession_accepted_waiting.
  - by destruct (Hinv _ _ Hk).
Qed.

(** ** Walking through the questions *)

Lemma run_index c db key st :
  db !! key = Some st ->
  replaces c key = false ->
  restarts c key = false ->
  exists st',
    run findQuiz c db !! key = Some st' /\
    quizId st' = quizId st /\
    currentQuestionIndex st' =
      currentQuestionIndex st + (if advances c key then 1 else 0).
Proof.
  intros Hk Hrep Hres.
  assert (Hsame : exists st', db !! key = Some st' /\ quizId st' = quizId st /\
            currentQuestionIndex st' = currentQuestionIndex st + 0).
  { exists st. repeat split; [done|lia]. }
  unfold replaces, restarts in *.
  destruct c; simpl in *; unfold_engine; simpl.
  - apply bool_decide_eq_false in Hrep. by rewrite lookup_insert_ne.
  - destruct (db !! session_key joinCode) as [s|] eqn:Hs; simpl; [|done].
    case_decide; simpl; [done|].
    destruct (decide (session_key joinCode = key)) as [<-|Hne].
    + rewrite lookup_insert_eq. eexists. split; [done|]. simpl.
      assert (s = st) as -> by congruence. split; [done|lia].
    + by rewrite lookup_insert_ne.
  - apply bool_decide_eq_false in Hres.
    destruct (db !! session_key joinCode); simpl; [|done].
    by rewrite lookup_insert_ne.
  - destruct (db !! session_key joinCode) as [s|] eqn:Hs; simpl.
    + case_bool_decide as Hkey.
      * subst key. rewrite lookup_insert_eq. eexists. split; [done|].
        assert (s = st) as -> by congruence.
        destruct (array_get _ _); simpl; done.
      * by rewrite lookup_insert_ne.
    + case_bool_decide; [congruence|done].
  - destruct (db !! session_key joinCode) as [s|] eqn:Hs; simpl; [|done].
    case_decide; simpl; [done|].
    destruct (JsObject.get _ _); simpl; [done|].
    destruct (array_get _ _) as [q|]; simpl; [|done].
    destruct (decide (session_key joinCode = key)) as [<-|Hne].
    + rewrite lookup_insert_eq. eexists. split; [done|]. simpl.
      assert (s = st) as -> by congruence. split; [done|lia].
    + by rewrite lookup_insert_ne.
  - destruct (db !! session_key joinCode) as [s|] eqn:Hs; simpl; [|done].
    destruct (array_get _ _) as [q|]; simpl; [|done].
    destruct (fold_left _ _ _). simpl.
    destruct (decide (session_key joinCode = key)) as [<-|Hne].
    + rewrite lookup_insert_eq. eexists. split; [done|]. simpl.
      assert (s = st) as -> by congruence. split; [done|lia].
    + by rewrite lookup_insert_ne.
  - destruct (db !! session_key joinCode) as [s|] eqn:Hs; simpl; [|done].
    destruct (decide (session_key joinCode = key)) as [<-|Hne].
    + rewrite lookup_insert_eq. eexists. split; [done|]. simpl.
      assert (s = st) as -> by congruence. split; [done|lia].
    + by rewrite lookup_insert_ne.
Qed.

Lemma run_all_index cs db key st :
  db !! key = Some st ->
  same_game key cs ->
  exists st',
    run_all findQuiz cs db !! key = Some st' /\
    quizId st' = quizId st /\
    currentQuestionIndex st' = currentQuestionIndex st + nextQuestion_calls key cs.
Proof.
  revert db st. induction cs as [|c cs IH]; intros db st Hk Hcs; simpl.
  - exists st. repeat split; [done|lia].
  - inversion Hcs as [|? ? [Hrep Hres] Hcs']; subst.
    destruct (run_index c db key st Hk Hrep Hres) as (st1 & Hk1 & Hq1 & Hi1).
    destruct (IH _ _ Hk1 Hcs') as (st' & Hk' & Hq' & Hi').
    exists st'. split; [done|]. split; [congruence|]. lia.
Qed.

Lemma nextQuestion_calls_nonneg key cs : 0 <= nextQuestion_calls key cs.
Proof. induction cs as [|c cs IH]; simpl; [done|]. destruct (advances c key); lia. Qed.

(** C6. For a quiz with N >= 1 questions, after [startGame], the k-th
    call of [nextQuestion] on the session (whatever other calls come in
    between, short of a restart) returns [totalQuestions = N], clears
    [answers], sets [questionStartTime] to the clock reading and stores
    the state it returns; for k in 1..N it leaves status
    SHOWING_QUESTION and index k-1 and returns the k-th question of the
    ordered list; for k = N+1 it returns no question and leaves status
    ENDED. *)
Theorem nextQuestion_kth db0 joinCode t0 cs now st0 k :
  db0 !! session_key joinCode = Some st0 ->
  1 <= questionCount findQuiz st0 ->
  same_game (session_key joinCode) cs ->
  k = 1 + nextQuestion_calls (session_key joinCode) cs ->
  let N := questionCount findQuiz st0 in
  let db := run_all findQuiz cs (run findQuiz (StartGame joinCode t0) db0) in
  exists r,
    nextQuestion findQuiz joinCode now db
      = (inr r, <[session_key joinCode := nq_state r]> db) /\
    totalQuestions r = N /\
    currentQuestionIndex (nq_state r) = k - 1 /\
    answers (nq_state r) = JsObject.empty /\
    questionStartTime (nq_state r) = Some now /\
    (1 <= k <= N ->
       status (nq_state r) = SHOWING_QUESTION /\
       is_Some (question r) /\
       question r = getQuizQuestions findQuiz (quizId st0) !! Z.to_nat (k - 1)) /\
    (k = N + 1 -> question r = None /\ status (nq_state r) = ENDED).
Proof.
  intros Hk0 HN Hcs Hkth N db.
  pose proof (nextQuestion_calls_nonneg (session_key joinCode) cs) as Hnn.
  assert (Hstart : exists st1,
            run findQuiz (StartGame joinCode t0) db0 !! session_key joinCode = Some st1 /\
            quizId st1 = quizId st0 /\ currentQuestionIndex st1 = -1).
  { simpl. unfold_engine. rewrite Hk0. simpl. rewrite lookup_insert_eq.
    eexists. split; [done|]. done. }
  destruct Hstart as (st1 & Hk1 & Hq1 & Hi1).
  destruct (run_all_index cs _ _ st1 Hk1 Hcs) as (st2 & Hk2 & Hq2 & Hi2).
  fold db in Hk2.
  unfold nextQuestion, getSession, bind, redis_get, redis_set, ret. rewrite Hk2.
  simpl. rewrite Hq2, Hq1.
  assert (Hidx : currentQuestionIndex st2 + 1 = k - 1) by lia.
  rewrite Hidx.
  unfold N, questionCount in *.
  destruct (array_get (getQuizQuestions findQuiz (quizId st0)) (k - 1)) as [q|] eqn:Hq.
  - eexists (mkNextQuestion _ _ _). split; [reflexivity|]. simpl.
    repeat split; try done.
    + rewrite <- Hq. unfold array_get. by rewrite decide_True by lia.
    + apply array_get_Some_lt in Hq. lia.
    + apply array_get_Some_lt in Hq. lia.
  - eexists (mkNextQuestion _ _ _). split; [reflexivity|]. simpl.
    repeat split; try done.
    + apply array_get_None_ge in Hq; lia.
    + apply array_get_None_ge in Hq; lia.
    + apply array_get_None_ge in Hq; lia.
Qed.

(** ** The ENDED status *)

(** C3 (amended). For a stored state with status ENDED: [joinSession]
    and [submitAnswer] throw and write nothing; [showResults] throws and
    writes nothing when no question stands at [currentQuestionIndex];
    [getSession] and [getLeaderboard] answer without writing.
    [startGame] and [nextQuestion] check no status: [startGame] stores
    status ACTIVE with index -1, [nextQuestion] stores the incremented
    index with cleared answers, and [showResults] stores status
    SHOWING_RESULTS when a question stands at the index. *)
Theorem ENDED_operations db joinCode st :
  db !! session_key joinCode = Some st ->
  status st = ENDED ->
  (forall nickname playerId,
     joinSession joinCode nickname playerId db = (inl GameAlreadyStarted, db)) /\
  (forall playerId optionIndex now,
     submitAnswer findQuiz joinCode playerId optionIndex now db
       = (inl NotAcceptingAnswers, db)) /\
  (current_question findQuiz st = None ->
     showResults findQuiz joinCode db = (inl NoCurrentQuestion, db)) /\
  getSession joinCode db = (inr (Some st), db) /\
  getLeaderboard joinCode db
    = (inr (take 10 (sort_by_score (JsObject.values (players st)))), db) /\
  (forall now,
     exists st',
       startGame joinCode now db
         = (inr (Some st'), <[session_key joinCode := st']> db) /\
       status st' = ACTIVE /\
       currentQuestionIndex st' = -1) /\
  (forall now,
     exists r,
       nextQuestion findQuiz joinCode now db
         = (inr r, <[session_key joinCode := nq_state r]> db) /\
       currentQuestionIndex (nq_state r) = currentQuestionIndex st + 1 /\
       answers (nq_state r) = JsObject.empty) /\
  (is_Some (current_question findQuiz st) ->
     exists r,
       showResults findQuiz joinCode db
         = (inr r, <[session_key joinCode := sr_state r]> db) /\
       status (sr_state r) = SHOWING_RESULTS).
Proof.
  intros Hk Hst. unfold current_question.
  repeat split.
  - intros nickname playerId. unfold_engine. rewrite Hk. simpl.
    rewrite decide_True; [done|]. by rewrite Hst.
  - intros playerId optionIndex now.
    apply (submitAnswer_wrong_phase _ _ _ _ _ st); [done|]. by rewrite Hst.
  - intros Hq. unfold_engine. rewrite Hk. simpl. by rewrite Hq.
  - unfold_engine. by rewrite Hk.
  - unfold_engine. by rewrite Hk.
  - intros now. unfold_engine. rewrite Hk. simpl. eexists. done.
  - intros now. unfold_engine. rewrite Hk. simpl.
    eexists (mkNextQuestion _ _ _). split; [reflexivity|]. simpl.
    destruct (array_get _ _); done.
  - intros [q Hq]. unfold_engine. rewrite Hk. simpl. rewrite Hq. simpl.
    destruct (fold_left _ _ _) as [dist cc]. simpl.
    eexists (mkShowResults _ _ _ _). split; [reflexivity|]. done.
Qed.

(** ** Results of a question *)

Lemma count_occ_cons_Z (l : list Z) (x i : Z) :
  Z.of_nat (count_occ Z.eq_dec (x :: l) i)
  = Z.of_nat (count_occ Z.eq_dec l i) + (if decide (x = i) then 1 else 0).
Proof.
  simpl. destruct (Z.eq_dec x i); case_decide; try done; lia.
Qed.

Lemma buckets_eq (a0 a1 a2 a3 c b0 b1 b2 b3 c' : Z) :
  a0 = b0 -> a1 = b1 -> a2 = b2 -> a3 = b3 -> c = c' ->
  ([a0; a1; a2; a3], c) = ([b0; b1; b2; b3], c').
Proof. by intros -> -> -> -> ->. Qed.

(** The loop of [showResults], started from any four buckets. *)
Lemma tally_fold correct (l : list Answer.t) d0 d1 d2 d3 cc :
  fold_left (tally correct) l ([d0; d1; d2; d3], cc)
  = ([d0 + count_answers 0 l; d1 + count_answers 1 l;
      d2 + count_answers 2 l; d3 + count_answers 3 l],
     cc + count_answers correct l).
Proof.
  revert d0 d1 d2 d3 cc. unfold count_answers.
  induction l as [|a l IH]; intros d0 d1 d2 d3 cc.
  - simpl. by rewrite !Z.add_0_r.
  - cbn [fold_left map]. rewrite !count_occ_cons_Z.
    unfold tally at 2.
    destruct (decide (0 <= Answer.optionIndex a /\ Answer.optionIndex a < 4))
      as [Hin|Hout].
    + assert (Answer.optionIndex a = 0 \/ Answer.optionIndex a = 1 \/
              Answer.optionIndex a = 2 \/ Answer.optionIndex a = 3)
        as [Ha|[Ha|[Ha|Ha]]] by lia;
        rewrite Ha; simpl; rewrite IH;
        apply buckets_eq; repeat case_decide; lia.
    + rewrite IH. apply buckets_eq; repeat case_decide; lia.
Qed.

Lemma showResults_accepts db joinCode st q :
  db !! session_key joinCode = Some st ->
  current_question findQuiz st = Some q ->
  showResults findQuiz joinCode db
  = (inr (mkShowResults (set_status SHOWING_RESULTS st)
            (Question.correctOptionIndex q)
            (map (fun i => count_answers i (JsObject.values (answers st))) [0; 1; 2; 3])
            (count_answers (Question.correctOptionIndex q)
               (JsObject.values (answers st)))),
     <[session_key joinCode := set_status SHOWING_RESULTS st]> db).
Proof.
  intros Hk Hq. unfold current_question in Hq.
  unfold_engine. rewrite Hk. simpl. rewrite Hq. simpl.
  rewrite tally_fold. simpl. reflexivity.
Qed.

(** C7 (amended). With a question at [currentQuestionIndex],
    [showResults] stores status SHOWING_RESULTS and returns an
    [answerDistribution] of exactly four entries, whatever the number of
    options of the question; entry [i] is the number of recorded answers
    with [optionIndex = i], and [correctCount] is the number of recorded
    answers with the correct option.  Recorded options 0, 1, 1 against
    correct option 1 give [[1, 2, 0, 0]] and 2. *)
Theorem showResults_distribution db joinCode st q :
  db !! session_key joinCode = Some st ->
  current_question findQuiz st = Some q ->
  exists r,
    showResults findQuiz joinCode db
      = (inr r, <[session_key joinCode := sr_state r]> db) /\
    sr_state r = set_status SHOWING_RESULTS st /\
    status (sr_state r) = SHOWING_RESULTS /\
    sr_correctOptionIndex r = Question.correctOptionIndex q /\
    length (answerDistribution r) = 4%nat /\
    (forall i, 0 <= i < 4 ->
       answerDistribution r !! Z.to_nat i
         = Some (count_answers i (JsObject.values (answers st)))) /\
    correctCount r
      = count_answers (Question.correctOptionIndex q) (JsObject.values (answers st)) /\
    (map Answer.optionIndex (JsObject.values (answers st)) = [0; 1; 1] ->
     Question.correctOptionIndex q = 1 ->
     answerDistribution r = [1; 2; 0; 0] /\ correctCount r = 2).
Proof.
  intros Hk Hq. rewrite (showResults_accepts db joinCode st q Hk Hq).
  eexists (mkShowResults _ _ _ _). split; [reflexivity|]. simpl.
  repeat split.
  - intros i Hi.
    assert (i = 0 \/ i = 1 \/ i = 2 \/ i = 3) as [-> | [-> | [-> | ->]]] by lia; done.
  - unfold count_answers. by rewrite H.
  - unfold count_answers. by rewrite H, H0.
Qed.

(** ** The leaderboard *)

Lemma insert_by_score_Permutation p l : Permutation (insert_by_score p l) (p :: l).
Proof.
  induction l as [|q l IH]; simpl; [done|].
  case_decide; [done|].
  rewrite IH. apply perm_swap.
Qed.

Lemma sort_by_score_Permutation l : Permutation (sort_by_score l) l.
Proof.
  induction l as [|p l IH]; simpl; [done|].
  rewrite insert_by_score_Permutation. by constructor.
Qed.

Lemma insert_by_score_HdRel a p l :
  score_ge a p -> HdRel score_ge a l -> HdRel score_ge a (insert_by_score p l).
Proof.
  intros Hap Hal. destruct l as [|q l]; simpl; [by constructor|].
  case_decide; constructor; [done|]. by inversion Hal.
Qed.

Lemma insert_by_score_descending p l :
  descending l -> descending (insert_by_score p l).
Proof.
  unfold descending. induction 1 as [|q l Hl IH Hq]; simpl.
  - by repeat constructor.
  - case_decide as Hle.
    + constructor; [by constructor|]. by constructor.
    + constructor; [done|].
      apply insert_by_score_HdRel; [|done]. unfold score_ge. lia.
Qed.

Lemma sort_by_score_descending l : descending (sort_by_score l).
Proof.
  induction l as [|p l IH]; simpl; [constructor|].
  by apply insert_by_score_descending.
Qed.

Lemma descending_take n l : descending l -> descending (take n l).
Proof.
  unfold descending. intros Hl. revert n.
  induction Hl as [|q l Hl IH Hq]; intros [|n]; simpl; try constructor.
  - apply IH.
  - destruct Hq; destruct n; simpl; by constructor.
Qed.

Lemma descending_head_max top rest p :
  descending (top :: rest) -> In p (top :: rest) -> Player.score p <= Player.score top.
Proof.
  intros Hs Hin. unfold descending in Hs.
  apply Sorted_StronglySorted in Hs.
  - inversion Hs as [|? ? _ Hall]; subst.
    destruct Hin as [<-|Hin]; [lia|].
    rewrite Forall_forall in Hall. apply Hall. by apply list_elem_of_In.
  - intros a b c. unfold score_ge. lia.
Qed.

(** C9. [getLeaderboard] returns the empty list when Redis holds no
    state for the join code.  Otherwise it writes nothing and returns
    the first ten entries (all of them when there are fewer) of the
    players ranked by descending score, so that every returned score is
    greater than or equal to the next; with 15 players it returns
    exactly 10 entries, and the first holds the maximum score of all
    players. *)
Theorem getLeaderboard_top10 db joinCode :
  (db !! session_key joinCode = None ->
   getLeaderboard joinCode db = (inr [], db)) /\
  (forall st,
     db !! session_key joinCode = Some st ->
     let everyone := JsObject.values (players st) in
     exists board,
       getLeaderboard joinCode db = (inr board, db) /\
       (exists ranking,
          Permutation ranking everyone /\ descending ranking /\
          board = take 10 ranking) /\
       descending board /\
       length board = Nat.min (length everyone) 10 /\
       (length everyone = 15%nat ->
        length board = 10%nat /\
        exists top rest,
          board = top :: rest /\
          forall p, In p everyone -> Player.score p <= Player.score top)).
Proof.
  split.
  - intros Hk. unfold_engine. by rewrite Hk.
  - intros st Hk everyone. unfold_engine. rewrite Hk. simpl.
    fold everyone. set (ranking := sort_by_score everyone).
    assert (Hperm : Permutation ranking everyone) by apply sort_by_score_Permutation.
    assert (Hdesc : descending ranking) by apply sort_by_score_descending.
    exists (take 10 ranking). split; [done|].
    split; [by exists ranking|].
    split; [by apply descending_take|].
    assert (Hlen : length ranking = length everyone) by by apply Permutation_length.
    split; [rewrite length_take; lia|].
    intros H15. split; [rewrite length_take; lia|].
    destruct ranking as [|top rest] eqn:Hr; [simpl in Hlen; lia|].
    exists top, (take 9 rest). split; [done|].
    intros p Hp. apply (descending_head_max top rest); [done|].
    apply list_elem_of_In. rewrite Hperm. by apply list_elem_of_In.
Qed.

(** ** Options outside the buckets *)

Lemma count_answers_cons i a l :
  count_answers i (a :: l)
  = count_answers i l + (if decide (Answer.optionIndex a = i) then 1 else 0).
Proof. unfold count_answers. cbn [map]. apply count_occ_cons_Z. Qed.

Lemma count_bucketed_cons a l :
  count_bucketed (a :: l)
  = count_bucketed l + (if decide (0 <= Answer.optionIndex a < 4) then 1 else 0).
Proof.
  unfold count_bucketed. cbn [List.filter].
  case_bool_decide; case_decide; try done; cbn [length]; lia.
Qed.

Lemma sum_buckets l :
  sum_list (map (fun i => count_answers i l) [0; 1; 2; 3]) = count_bucketed l.
Proof.
  induction l as [|a l IH]; [done|].
  rewrite count_bucketed_cons, <- IH. cbn [map sum_list foldr].
  rewrite !count_answers_cons.
  repeat case_decide; lia.
Qed.

Lemma count_bucketed_le l : count_bucketed l <= Z.of_nat (length l).
Proof.
  induction l as [|a l IH]; [done|].
  rewrite count_bucketed_cons. cbn [length]. case_decide; lia.
Qed.

Lemma count_bucketed_snoc_outside l a :
  ~ (0 <= Answer.optionIndex a < 4) -> count_bucketed (l ++ [a])%list = count_bucketed l.
Proof.
  intros Hout. induction l as [|b l IH].
  - simpl. rewrite count_bucketed_cons. rewrite decide_False by done. done.
  - cbn [app]. rewrite !count_bucketed_cons, IH. done.
Qed.

(** C10. [submitAnswer] does not check [optionIndex] against the
    options: in a store that the engine can build, for every integer
    [optionIndex], a call by a player who has not answered, during
    SHOWING_QUESTION, succeeds and records the answer, and returns 0
    points when the option is not the correct one.  The
    [answerDistribution] of the [showResults] that follows sums to the
    number of answers with an option in 0..3, so an answer outside that
    range makes the sum smaller than the number of recorded answers. *)
Theorem submitAnswer_any_optionIndex db joinCode playerId optionIndex now st :
  reachable findQuiz db ->
  db !! session_key joinCode = Some st ->
  status st = SHOWING_QUESTION ->
  JsObject.get (answers st) playerId = None ->
  exists q correct points st1,
    current_question findQuiz st = Some q /\
    submitAnswer findQuiz joinCode playerId optionIndex now db
      = (inr (correct, points), <[session_key joinCode := st1]> db) /\
    JsObject.get (answers st1) playerId
      = Some (Answer.mk playerId optionIndex (now - or_now (questionStartTime st) now)) /\
    (optionIndex <> Question.correctOptionIndex q -> correct = false /\ points = 0) /\
    exists r db2,
      showResults findQuiz joinCode (<[session_key joinCode := st1]> db)
        = (inr r, db2) /\
      sum_list (answerDistribution r)
        = count_bucketed (JsObject.values (answers st1)) /\
      (~ (0 <= optionIndex < 4) ->
       sum_list (answerDistribution r)
         < Z.of_nat (length (JsObject.values (answers st1)))).
Proof.
  intros Hreach Hk Hst Hans.
  destruct (reachable_store_inv db Hreach _ _ Hk) as [_ _ _ Hq].
  destruct (Hq Hst) as [q Hcur].
  rewrite (submitAnswer_accepts db joinCode playerId optionIndex now st q)
    by assumption.
  eexists q, _, _, _. split; [done|]. split; [reflexivity|]. simpl.
  split; [apply JsObject_get_set_eq|].
  split.
  { intros Hne. by rewrite bool_decide_eq_false_2. }
  erewrite showResults_accepts;
    [|apply lookup_insert_eq|unfold current_question; simpl; exact Hcur].
  eexists _, _. split; [reflexivity|].
  cbn [answerDistribution answers set_players set_answers set_status].
  rewrite sum_buckets. split; [done|].
  intros Hout. rewrite JsObject_values_set_fresh by done.
  rewrite count_bucketed_snoc_outside by done.
  pose proof (count_bucketed_le (JsObject.values (answers st))).
  rewrite length_app. simpl. lia.
Qed.

(** ** Interleaved calls *)

Lemma submitAnswer_resume_accepts db joinCode playerId optionIndex now st q :
  status st = SHOWING_QUESTION ->
  JsObject.get (answers st) playerId = None ->
  current_question findQuiz st = Some q ->
  submitAnswer_resume findQuiz (Some st) joinCode playerId optionIndex now db
  = (inr (bool_decide (optionIndex = Question.correctOptionIndex q),
          points_for st q optionIndex now),
     <[session_key joinCode := record_answer st q playerId optionIndex now]> db).
Proof.
  intros Hst Hans Hq. unfold current_question in Hq.
  unfold_engine. simpl.
  rewrite decide_False by (by rewrite Hst; intros []).
  rewrite Hans, Hq. reflexivity.
Qed.

Lemma score_add_score_eq ps playerId points :
  Player.score <$> JsObject.get (add_score ps playerId points) playerId
  = (fun s => s + points) <$> (Player.score <$> JsObject.get ps playerId).
Proof.
  unfold add_score.
  destruct (JsObject.get ps playerId) as [p|] eqn:Hp.
  - by rewrite JsObject_get_set_eq.
  - by rewrite Hp.
Qed.

Lemma score_add_score_ne ps playerId points playerId' :
  playerId <> playerId' ->
  JsObject.get (add_score ps playerId points) playerId' = JsObject.get ps playerId'.
Proof.
  intros Hne. unfold add_score.
  destruct (JsObject.get ps playerId) as [p|] eqn:Hp; [|done].
  by rewrite JsObject_get_set_ne.
Qed.

(** The store after two writes under one key, seen through
    [answer_recorded] and [stored_score]. *)
Lemma answer_recorded_insert db joinCode st playerId optionIndex a :
  JsObject.get (answers st) playerId = Some a ->
  Answer.optionIndex a = optionIndex ->
  answer_recorded (<[session_key joinCode := st]> db) joinCode playerId optionIndex.
Proof.
  intros Ha Ho. exists st, a. by rewrite lookup_insert_eq.
Qed.

Lemma stored_score_insert db joinCode st playerId :
  stored_score (<[session_key joinCode := st]> db) joinCode playerId
  = Player.score <$> JsObject.get (players st) playerId.
Proof. unfold stored_score. by rewrite lookup_insert_eq. Qed.

(** One call after the other: the second call reads what the first has
    written, and the store ends with both updates. *)
Lemma serial_updates db joinCode st q a b :
  db !! session_key joinCode = Some st ->
  status st = SHOWING_QUESTION ->
  current_question findQuiz st = Some q ->
  call_joinCode a = joinCode -> call_joinCode b = joinCode ->
  call_playerId a <> call_playerId b ->
  JsObject.get (answers st) (call_playerId a) = None ->
  JsObject.get (answers st) (call_playerId b) = None ->
  let '(fa, db1) := resume findQuiz (serve (launch a) db) db in
  let '(fb, db2) := resume findQuiz (serve (launch b) db1) db1 in
  update_present db db2 fa /\ update_present db db2 fb.
Proof.
  intros Hk Hst Hq Hja Hjb Hne Ha Hb.
  unfold serve, launch, resume. cbn [fl_reply fl_result fl_call].
  rewrite Hja, Hk.
  rewrite (submitAnswer_resume_accepts db joinCode _ _ _ st q) by assumption.
  rewrite Hjb, lookup_insert_eq.
  set (st1 := record_answer st q (call_playerId a) (call_optionIndex a) (call_now a)).
  rewrite (submitAnswer_resume_accepts _ joinCode _ _ _ st1 q); try done.
  2:{ simpl. by rewrite JsObject_get_set_ne. }
  set (st2 := record_answer st1 q (call_playerId b) (call_optionIndex b) (call_now b)).
  split.
  - eexists _, _. cbn [fl_result fl_call]. split; [reflexivity|].
    rewrite Hja. split.
    + eapply answer_recorded_insert;
        [simpl; rewrite JsObject_get_set_ne by done; apply JsObject_get_set_eq
        |reflexivity].
    + rewrite stored_score_insert. unfold stored_score. rewrite Hk.
      simpl. rewrite score_add_score_ne by done.
      apply score_add_score_eq.
  - eexists _, _. cbn [fl_result fl_call]. split; [reflexivity|].
    rewrite Hjb. split.
    + eapply answer_recorded_insert;
        [simpl; apply JsObject_get_set_eq|reflexivity].
    + rewrite stored_score_insert. unfold stored_score. rewrite Hk.
      simpl. rewrite score_add_score_eq.
      by rewrite score_add_score_ne by done.
Qed.

(** Both replies are served before either call resumes: the call that
    resumes second writes the state it read at the start plus its own
    update, and the update of the first is gone. *)
Lemma stale_updates db joinCode st q a b :
  db !! session_key joinCode = Some st ->
  status st = SHOWING_QUESTION ->
  current_question findQuiz st = Some q ->
  call_joinCode a = joinCode -> call_joinCode b = joinCode ->
  call_playerId a <> call_playerId b ->
  JsObject.get (answers st) (call_playerId a) = None ->
  JsObject.get (answers st) (call_playerId b) = None ->
  let '(fa, db1) := resume findQuiz (serve (launch a) db) db in
  let '(fb, db2) := resume findQuiz (serve (launch b) db) db1 in
  update_lost db db2 fa /\ update_present db db2 fb.
Proof.
  intros Hk Hst Hq Hja Hjb Hne Ha Hb.
  unfold serve, launch, resume. cbn [fl_reply fl_result fl_call].
  rewrite Hja, Hjb, Hk.
  rewrite (submitAnswer_resume_accepts db joinCode _ _ _ st q) by assumption.
  rewrite (submitAnswer_resume_accepts _ joinCode _ _ _ st q) by assumption.
  split.
  - split; [by eexists|]. cbn [fl_call]. rewrite Hja. split.
    + intros oi (st' & ans & Hst' & Hans & _).
      rewrite lookup_insert_eq in Hst'. injection Hst' as <-.
      simpl in Hans. rewrite JsObject_get_set_ne in Hans by done. congruence.
    + rewrite stored_score_insert. unfold stored_score. rewrite Hk.
      simpl. by rewrite score_add_score_ne by done.
  - eexists _, _. cbn [fl_result fl_call]. split; [reflexivity|].
    rewrite Hjb. split.
    + eapply answer_recorded_insert;
        [simpl; apply JsObject_get_set_eq|reflexivity].
    + rewrite stored_score_insert. unfold stored_score. rewrite Hk.
      simpl. apply score_add_score_eq.
Qed.

Ltac run_schedule :=
  unfold schedule; cbn [fold_left event_step flightA flightB redis];
  repeat
    (let f := fresh "f" in
     let db := fresh "db" in
     destruct (resume _ _ _) as [f db]; cbn [flightA flightB redis]).

(** C2 (amended). The engine takes no lock and makes no compare-and-set:
    the get / mutate / set cycle of [submitAnswer] is atomic only when
    the calls on a join code do not overlap.  For two calls by different
    players on a session that is showing a question: when one call has
    returned before Redis serves the other, both answers and both score
    updates are in the stored state; in every other order of the two
    [GET]s and the two continuations, both calls return successfully and
    the stored state holds the answer and the score update of the call
    that wrote last, and neither the answer nor the score update of the
    other call. *)
Theorem submitAnswer_atomic_when_serial db joinCode a b es :
  racing findQuiz db joinCode a b ->
  In es interleavings ->
  let sys := schedule findQuiz es a b db in
  (serial es ->
   update_present db (redis sys) (flightA sys) /\
   update_present db (redis sys) (flightB sys)) /\
  (~ serial es ->
   (last_resumed es = Some CallerA ->
    update_present db (redis sys) (flightA sys) /\
    update_lost db (redis sys) (flightB sys)) /\
   (last_resumed es = Some CallerB ->
    update_lost db (redis sys) (flightA sys) /\
    update_present db (redis sys) (flightB sys)) /\
   is_Some (last_resumed es)).
Proof.
  intros (st & q & Hk & Hst & Hq & _ & Hja & Hjb & Hne & Ha & Hb) Hin sys.
  assert (Hne' : call_playerId b <> call_playerId a) by congruence.
  pose proof (serial_updates db joinCode st q a b Hk Hst Hq Hja Hjb Hne Ha Hb)
    as Hab.
  pose proof (serial_updates db joinCode st q b a Hk Hst Hq Hjb Hja Hne' Hb Ha)
    as Hba.
  pose proof (stale_updates db joinCode st q a b Hk Hst Hq Hja Hjb Hne Ha Hb)
    as Hab'.
  pose proof (stale_updates db joinCode st q b a Hk Hst Hq Hjb Hja Hne' Hb Ha)
    as Hba'.
  unfold serial. simpl in Hin.
  destruct Hin as [<-|[<-|[<-|[<-|[<-|[<-|[]]]]]]]; subst sys; split;
    try (intros [Hes|Hes]; discriminate Hes);
    try (intros Hns; exfalso; apply Hns; auto; fail);
    try (intros _; split; [|split; [|by eexists]]; intros Hlast;
         try discriminate Hlast).
  - intros _. revert Hab. run_schedule. done.
  - revert Hab'. run_schedule. done.
  - revert Hba'. run_schedule. tauto.
  - revert Hab'. run_schedule. done.
  - revert Hba'. run_schedule. tauto.
  - intros _. revert Hba. run_schedule. tauto.
Qed.

(** A serial schedule is the two engine calls run one after the other. *)
Lemma serial_schedule_is_sequence db a b :
  redis (schedule findQuiz
           [Serve CallerA; Resume CallerA; Serve CallerB; Resume CallerB] a b db)
  = stored (submitAnswer findQuiz (call_joinCode b) (call_playerId b)
              (call_optionIndex b) (call_now b))
      (stored (submitAnswer findQuiz (call_joinCode a) (call_playerId a)
                 (call_optionIndex a) (call_now a)) db).
Proof.
  unfold schedule, stored, submitAnswer, getSession, bind, redis_get.
  cbn [fold_left event_step flightA flightB redis].
  unfold resume, serve, launch. cbn [fl_reply fl_result fl_call fst snd].
  destruct (submitAnswer_resume _ _ _ _ _ _ db) as [ra db1].
  cbn [flightA flightB redis fl_reply fl_result fl_call fst snd].
  destruct (submitAnswer_resume _ _ _ _ _ _ db1) as [rb db2].
  reflexivity.
Qed.

(** ** All or nothing, and one session at a time *)

Lemma session_key_inj joinCode joinCode' :
  session_key joinCode = session_key joinCode' -> joinCode = joinCode'.
Proof. unfold session_key. cbn. intros H. by simplify_eq. Qed.

Lemma thrown_writes_nothing_aux c db e :
  thrown findQuiz c db = Some e -> run findQuiz c db = db.
Proof.
  destruct c; simpl; unfold_engine; simpl.
  - done.
  - destruct (db !! session_key joinCode); simpl; [|done].
    case_decide; simpl; done.
  - destruct (db !! session_key joinCode); simpl; done.
  - destruct (db !! session_key joinCode); simpl; done.
  - destruct (db !! session_key joinCode); simpl; [|done].
    case_decide; simpl; [done|].
    destruct (JsObject.get _ _); simpl; [done|].
    destruct (array_get _ _); simpl; done.
  - destruct (db !! session_key joinCode); simpl; [|done].
    destruct (array_get _ _); simpl; [|done].
    destruct (fold_left _ _ _). done.
  - destruct (db !! session_key joinCode); simpl; done.
Qed.

(** X1. The errors that the engine raises itself come before any
    write: they are raised by [joinSession], [nextQuestion],
    [submitAnswer] and [showResults] only, and whenever one of these
    calls ends in such an [Error], Redis is exactly as it was before the
    call. *)
Theorem thrown_writes_nothing c db e :
  thrown findQuiz c db = Some e ->
  raises c = true /\ run findQuiz c db = db.
Proof.
  intros Hthrown. split.
  - destruct c; try done; simpl in Hthrown; unfold_engine; simpl in Hthrown.
    + destruct (db !! session_key joinCode); done.
    + destruct (db !! session_key joinCode); done.
  - by eapply thrown_writes_nothing_aux.
Qed.

Lemma run_other_key c db key :
  command_key c <> key -> run findQuiz c db !! key = db !! key.
Proof.
  intros Hne. destruct c; simpl in *; unfold_engine; simpl.
  - by rewrite lookup_insert_ne.
  - destruct (db !! session_key joinCode); simpl; [|done].
    case_decide; simpl; [done|]. by rewrite lookup_insert_ne.
  - destruct (db !! session_key joinCode); simpl; [|done].
    by rewrite lookup_insert_ne.
  - destruct (db !! session_key joinCode); simpl; [|done].
    by rewrite lookup_insert_ne.
  - destruct (db !! session_key joinCode); simpl; [|done].
    case_decide; simpl; [done|].
    destruct (JsObject.get _ _); simpl; [done|].
    destruct (array_get _ _); simpl; [|done].
    by rewrite lookup_insert_ne.
  - destruct (db !! session_key joinCode); simpl; [|done].
    destruct (array_get _ _); simpl; [|done].
    destruct (fold_left _ _ _). simpl. by rewrite lookup_insert_ne.
  - destruct (db !! session_key joinCode); simpl; [|done].
    by rewrite lookup_insert_ne.
Qed.

Lemma command_key_joinCode c : command_key c = session_key (command_joinCode c).
Proof. by destruct c. Qed.

(** X2. Sessions do not interfere: a history of calls that never names
    a join code leaves the state stored for that join code as it was
    (also its absence). *)
Theorem other_sessions_untouched cs db joinCode :
  Forall (fun c => command_joinCode c <> joinCode) cs ->
  getSession joinCode (run_all findQuiz cs db) =
    (inr (db !! session_key joinCode), run_all findQuiz cs db).
Proof.
  intros Hcs. unfold getSession, redis_get. f_equal. f_equal.
  revert db. induction Hcs as [|c cs Hc _ IH]; intros db; simpl; [done|].
  rewrite IH. apply run_other_key. rewrite command_key_joinCode.
  intros Heq. by apply session_key_inj in Heq.
Qed.

(** ** Objects used as maps, continued *)

Lemma JsObject_get_None_keys {V} (o : JsObject.t V) k :
  JsObject.get o k = None <-> ~ In k (JsObject.keys o).
Proof.
  induction o as [|[k' v'] o IH]; simpl; [tauto|].
  destruct (decide (k' = k)) as [->|Hne].
  - split; [done|]. intros H. exfalso. apply H. by left.
  - rewrite IH. tauto.
Qed.

Lemma JsObject_keys_set_present {V} (o : JsObject.t V) k v :
  is_Some (JsObject.get o k) -> JsObject.keys (JsObject.set o k v) = JsObject.keys o.
Proof.
  induction o as [|[k' v'] o IH]; simpl; [by intros [? ?]|].
  destruct (decide (k' = k)) as [->|Hne]; simpl; [done|].
  intros H. unfold JsObject.keys in *. simpl. f_equal. by apply IH.
Qed.

Lemma JsObject_keys_set_fresh {V} (o : JsObject.t V) k v :
  JsObject.get o k = None ->
  JsObject.keys (JsObject.set o k v) = (JsObject.keys o ++ [k])%list.
Proof.
  induction o as [|[k' v'] o IH]; simpl; [done|].
  destruct (decide (k' = k)); [done|].
  intros H. unfold JsObject.keys in *. simpl. f_equal. by apply IH.
Qed.

Lemma JsObject_NoDup_set {V} (o : JsObject.t V) k v :
  NoDup (JsObject.keys o) -> NoDup (JsObject.keys (JsObject.set o k v)).
Proof.
  intros Hnd. destruct (JsObject.get o k) as [v0|] eqn:Hget.
  - by rewrite JsObject_keys_set_present.
  - rewrite JsObject_keys_set_fresh by done.
    apply NoDup_app. split; [done|]. split; [|apply NoDup_singleton].
    intros x Hx Hk. apply list_elem_of_In in Hk. destruct Hk as [<-|[]].
    apply JsObject_get_None_keys in Hget. apply Hget. by apply list_elem_of_In.
Qed.

Lemma JsObject_Forall_entries_set {V} (P : string * V -> Prop) (o : JsObject.t V) k v :
  Forall P o -> P (k, v) -> Forall P (JsObject.set o k v).
Proof.
  intros Ho Hv. induction o as [|[k' v'] o IH]; simpl.
  - by constructor.
  - inversion Ho; subst.
    destruct (decide (k' = k)); constructor; auto.
Qed.

Lemma JsObject_get_entry {V} (o : JsObject.t V) k v :
  JsObject.get o k = Some v -> In (k, v) o.
Proof.
  induction o as [|[k' v'] o IH]; simpl; [done|].
  destruct (decide (k' = k)) as [->|Hne].
  - intros [= ->]. by left.
  - intros H. right. by apply IH.
Qed.

(** ** More invariants of the stored sessions *)

Lemma store_wf_insert db k st :
  store_wf findQuiz db -> keyed st -> phase_inv findQuiz st ->
  store_wf findQuiz (<[k := st]> db).
Proof.
  intros Hdb Hk Hp k' st'. rewrite lookup_insert. case_decide.
  - by intros [= <-].
  - apply Hdb.
Qed.

Lemma keyed_add_score st playerId points ans :
  keyed st ->
  Forall (fun kv => Answer.playerId (snd kv) = fst kv) ans ->
  NoDup (JsObject.keys ans) ->
  keyed (set_players (add_score (players st) playerId points) (set_answers ans st)).
Proof.
  intros [Hp Ha Hnp Hna] Hans Hnd. constructor; simpl; try done.
  - unfold add_score. destruct (JsObject.get _ _) as [p|] eqn:Hget; [|done].
    apply JsObject_Forall_entries_set; [done|]. simpl.
    apply JsObject_get_entry in Hget. rewrite Forall_forall in Hp.
    apply (Hp (playerId, p)). by apply list_elem_of_In.
  - unfold add_score. destruct (JsObject.get _ _) as [p|] eqn:Hget; [|done].
    by apply JsObject_NoDup_set.
Qed.

Lemma run_store_wf c db : store_wf findQuiz db -> store_wf findQuiz (run findQuiz c db).
Proof.
  intros Hdb. destruct c; unfold run; unfold_engine; simpl.
  - (* createSession *)
    apply store_wf_insert; [done| |].
    + constructor; simpl; constructor.
    + constructor; simpl; try done; try lia. by intros [? | ?].
  - (* joinSession *)
    destruct (db !! session_key joinCode) as [st|] eqn:Hk; simpl; [|done].
    case_decide as Hst; simpl; [done|].
    destruct (Hdb _ _ Hk) as [[Hp Ha Hnp Hna] [P1 P2 P3 P4 P5]].
    apply store_wf_insert; [done| |].
    + constructor; simpl; try done.
      * by apply JsObject_Forall_entries_set.
      * by apply JsObject_NoDup_set.
    + constructor; simpl; done.
  - (* startGame *)
    destruct (db !! session_key joinCode) as [st|] eqn:Hk; simpl; [|done].
    destruct (Hdb _ _ Hk) as [[Hp Ha Hnp Hna] [P1 P2 P3 P4 P5]].
    apply store_wf_insert; [done| |].
    + constructor; simpl; done.
    + constructor; simpl; try done; try lia. by intros [? | ?].
  - (* nextQuestion *)
    destruct (db !! session_key joinCode) as [st|] eqn:Hk; simpl; [|done].
    destruct (Hdb _ _ Hk) as [[Hp Ha Hnp Hna] [P1 P2 P3 P4 P5]].
    apply store_wf_insert; [done| |].
    + destruct (array_get _ _); constructor; simpl; try done; constructor.
    + destruct (array_get _ _) as [q|] eqn:Hq; constructor; simpl; try done;
        try (by intros [? | ?]).
  - (* submitAnswer *)
    destruct (db !! session_key joinCode) as [st|] eqn:Hk; simpl; [|done].
    case_decide as Hst; simpl; [done|].
    destruct (Hdb _ _ Hk) as [Hkeyed [P1 P2 P3 P4 P5]].
    destruct (JsObject.get _ _); simpl; [done|].
    destruct (array_get _ _) as [q|] eqn:Hq; simpl; [|done].
    apply store_wf_insert; [done| |].
    + destruct Hkeyed as [Hp Ha Hnp Hna].
      apply keyed_add_score; [done| |].
      * by apply JsObject_Forall_entries_set.
      * by apply JsObject_NoDup_set.
    + constructor; simpl; try done.
      all: try (intros Hw; rewrite Hst in Hw; discriminate).
  - (* showResults *)
    destruct (db !! session_key joinCode) as [st|] eqn:Hk; simpl; [|done].
    destruct (Hdb _ _ Hk) as [[Hp Ha Hnp Hna] [P1 P2 P3 P4 P5]].
    destruct (array_get _ _) as [q|] eqn:Hq; simpl; [|done].
    destruct (fold_left _ _ _) as [dist cc]. simpl.
    apply store_wf_insert; [done| |].
    + constructor; simpl; done.
    + constructor; simpl; try done; try (by intros [? | ?]).
      all: try (intros _; unfold current_question; by rewrite Hq).
  - (* endGame *)
    destruct (db !! session_key joinCode) as [st|] eqn:Hk; simpl; [|done].
    destruct (Hdb _ _ Hk) as [[Hp Ha Hnp Hna] [P1 P2 P3 P4 P5]].
    apply store_wf_insert; [done| |].
    + constructor; simpl; done.
    + constructor; simpl; try done; by intros [? | ?].
Qed.

Lemma reachable_store_wf db : reachable findQuiz db -> store_wf findQuiz db.
Proof.
  induction 1 as [|c db _ IH].
  - intros k st. by rewrite lookup_empty.
  - by apply run_store_wf.
Qed.

(** ** The roster and the answers *)

(** X3. In every store that the engine can build, each player stands
    on the roster under the player's own id and each answer under the id
    of the player who gave it, and no id stands twice: a player has at
    most one roster entry and at most one answer per question. *)
Theorem roster_and_answers_keyed db joinCode st :
  reachable findQuiz db ->
  db !! session_key joinCode = Some st ->
  (forall playerId p,
     JsObject.get (players st) playerId = Some p -> Player.id p = playerId) /\
  (forall playerId a,
     JsObject.get (answers st) playerId = Some a -> Answer.playerId a = playerId) /\
  NoDup (JsObject.keys (players st)) /\
  NoDup (JsObject.keys (answers st)).
Proof.
  intros Hreach Hk.
  destruct (reachable_store_wf db Hreach _ _ Hk) as [[Hp Ha Hnp Hna] _].
  repeat split; try done.
  - intros playerId p Hget. apply JsObject_get_entry in Hget.
    rewrite Forall_forall in Hp. apply (Hp (playerId, p)). by apply list_elem_of_In.
  - intros playerId a Hget. apply JsObject_get_entry in Hget.
    rewrite Forall_forall in Ha. apply (Ha (playerId, a)). by apply list_elem_of_In.
Qed.

(** X4. Before the first question, that is with status WAITING or
    ACTIVE, [showResults] throws "No current question" and
    [submitAnswer] throws "Not accepting answers", and neither writes:
    the index is still -1 there. *)
Theorem nothing_to_show_before_first_question db joinCode st :
  reachable findQuiz db ->
  db !! session_key joinCode = Some st ->
  status st = WAITING \/ status st = ACTIVE ->
  currentQuestionIndex st = -1 /\
  showResults findQuiz joinCode db = (inl NoCurrentQuestion, db) /\
  forall playerId optionIndex now,
    submitAnswer findQuiz joinCode playerId optionIndex now db
      = (inl NotAcceptingAnswers, db).
Proof.
  intros Hreach Hk Hst.
  destruct (reachable_store_wf db Hreach _ _ Hk) as [_ [P1 _ _ _ _]].
  pose proof (P1 Hst) as Hidx. split; [done|]. split.
  - unfold_engine. rewrite Hk. simpl. rewrite Hidx.
    unfold array_get. by rewrite decide_False by lia.
  - intros playerId optionIndex now.
    apply (submitAnswer_wrong_phase _ _ _ _ _ st); [done|].
    destruct Hst as [-> | ->]; done.
Qed.

(** X5. While a question or its results are shown (status
    SHOWING_QUESTION or SHOWING_RESULTS) the stored state has a question
    at its index and a start time, so [showResults] succeeds there. *)
Theorem shown_question_is_there db joinCode st :
  reachable findQuiz db ->
  db !! session_key joinCode = Some st ->
  status st = SHOWING_QUESTION \/ status st = SHOWING_RESULTS ->
  exists q t r,
    current_question findQuiz st = Some q /\
    questionStartTime st = Some t /\
    0 <= currentQuestionIndex st < questionCount findQuiz st /\
    outcome (showResults findQuiz joinCode) db = inr r /\
    sr_correctOptionIndex r = Question.correctOptionIndex q.
Proof.
  intros Hreach Hk Hst.
  destruct (reachable_store_wf db Hreach _ _ Hk) as [_ [_ _ _ P4 P5]].
  destruct (P5 Hst) as [q Hq].
  pose proof Hq as Hlt. unfold current_question in Hlt.
  apply array_get_Some_lt in Hlt.
  destruct (P4 (proj1 Hlt)) as [t Ht].
  unfold outcome. rewrite (showResults_accepts db joinCode st q Hk Hq).
  eexists q, t, _. repeat split; try done; apply Hlt.
Qed.

(** ** Joining *)

(** X6. [joinSession] succeeds exactly when Redis holds a state for the
    join code whose status is WAITING; without a state it throws
    "Session not found", with any other status "Game already started",
    and in both cases it writes nothing. *)
Theorem joinSession_only_in_lobby db joinCode nickname playerId :
  ((exists st', outcome (joinSession joinCode nickname playerId) db = inr st')
   <-> exists st, db !! session_key joinCode = Some st /\ status st = WAITING) /\
  (db !! session_key joinCode = None ->
   joinSession joinCode nickname playerId db = (inl SessionNotFound, db)) /\
  (forall st,
     db !! session_key joinCode = Some st ->
     status st <> WAITING ->
     joinSession joinCode nickname playerId db = (inl GameAlreadyStarted, db)).
Proof.
  unfold_engine. destruct (db !! session_key joinCode) as [st|] eqn:Hk; simpl.
  - case_decide as Hst; simpl.
    + split; [|split; [done|]].
      * split; [by intros [? ?]|]. intros (st0 & [= <-] & Hw). done.
      * done.
    + split; [|split; [done|]].
      * split; [|by eexists]. intros _. by exists st.
      * intros st0 [= <-] Hne. done.
  - split; [|split; done].
    split; [by intros [? ?]|]. by intros (st0 & ? & _).
Qed.

(** X7. A successful [joinSession] is an upsert on the roster: for an
    id that is an ordinary key, the stored and returned state differs
    from the old one in [players] only, where the entry of [playerId] is
    [{id, nickname, score: 0}]; every other entry is as before.  A new id
    goes to the end of the roster; an id that is already there keeps its
    place, so joining twice with one id leaves one entry (with the later
    nickname). *)
Theorem joinSession_upserts db joinCode nickname playerId st :
  db !! session_key joinCode = Some st ->
  status st = WAITING ->
  ordinary_key playerId = true ->
  exists st',
    joinSession joinCode nickname playerId db
      = (inr st', <[session_key joinCode := st']> db) /\
    st' = set_players (players st') st /\
    JsObject.get (players st') playerId = Some (Player.mk playerId nickname 0) /\
    (forall other, other <> playerId ->
       JsObject.get (players st') other = JsObject.get (players st) other) /\
    (JsObject.get (players st) playerId = None ->
       JsObject.keys (players st') = (JsObject.keys (players st) ++ [playerId])%list) /\
    (is_Some (JsObject.get (players st) playerId) ->
       JsObject.keys (players st') = JsObject.keys (players st)).
Proof.
  intros Hk Hst _. unfold_engine. rewrite Hk. simpl.
  rewrite decide_False by (by rewrite Hst; intros []).
  eexists. split; [reflexivity|]. simpl.
  split; [done|]. split; [apply JsObject_get_set_eq|].
  split; [|split].
  - intros other Hne. by apply JsObject_get_set_ne.
  - apply JsObject_keys_set_fresh.
  - apply JsObject_keys_set_present.
Qed.

(** ** More about the leaderboard *)

Lemma sort_by_score_descending_id l : descending l -> sort_by_score l = l.
Proof.
  unfold descending. induction 1 as [|p l Hl IH Hp]; [done|].
  simpl. rewrite IH. destruct Hp as [|q l' Hpq]; simpl; [done|].
  unfold score_ge in Hpq. by rewrite decide_True.
Qed.

Lemma scores_zero_descending l :
  Forall (fun p => Player.score p = 0) l -> descending l.
Proof.
  unfold descending. induction 1 as [|p l Hp Hl IH]; constructor; [done|].
  destruct Hl as [|q l' Hq _]; constructor. unfold score_ge. lia.
Qed.

(** X8. Before the game starts the leaderboard is the roster as it
    stands: in a store that calls of the engine, overlapping or not, can
    leave, for a session in WAITING whose player ids are ordinary keys,
    [getLeaderboard] returns the first ten players of the roster in the
    order in which their ids were added to it. *)
Theorem lobby_leaderboard_in_joining_order db joinCode st :
  attainable findQuiz db ->
  db !! session_key joinCode = Some st ->
  status st = WAITING ->
  Forall (fun k => ordinary_key k = true) (JsObject.keys (players st)) ->
  getLeaderboard joinCode db = (inr (take 10 (JsObject.values (players st))), db).
Proof.
  intros Hreach Hk Hst _.
  destruct (attainable_store_inv db Hreach _ _ Hk) as [_ _ Hz _].
  unfold_engine. rewrite Hk. simpl.
  rewrite sort_by_score_descending_id; [done|].
  apply scores_zero_descending. by apply Hz.
Qed.

Lemma with_score_insert s p l :
  with_score s (insert_by_score p l) = with_score s (p :: l).
Proof.
  unfold with_score. induction l as [|q l IH]; [done|].
  cbn [insert_by_score]. case_decide as Hle; [done|].
  cbn [List.filter]. rewrite IH. cbn [List.filter].
  repeat case_bool_decide; try done; lia.
Qed.

Lemma with_score_sort s l : with_score s (sort_by_score l) = with_score s l.
Proof.
  induction l as [|p l IH]; [done|].
  cbn [sort_by_score foldr]. rewrite with_score_insert.
  unfold with_score in *. cbn [List.filter]. fold (sort_by_score l).
  by rewrite IH.
Qed.

(** X9. Ties on the leaderboard are broken by roster order: the
    leaderboard is the first ten entries of a ranking of all players in
    which, for every score, the players with that score follow each
    other as they do on the roster. *)
Theorem getLeaderboard_ties_in_roster_order db joinCode st :
  db !! session_key joinCode = Some st ->
  exists ranking,
    getLeaderboard joinCode db = (inr (take 10 ranking), db) /\
    Permutation ranking (JsObject.values (players st)) /\
    descending ranking /\
    forall s, with_score s ranking = with_score s (JsObject.values (players st)).
Proof.
  intros Hk. exists (sort_by_score (JsObject.values (players st))).
  split; [unfold_engine; by rewrite Hk|].
  split; [apply sort_by_score_Permutation|].
  split; [apply sort_by_score_descending|].
  intros s. apply with_score_sort.
Qed.

Lemma descending_take_drop n l p q :
  descending l -> In p (take n l) -> In q (drop n l) ->
  Player.score q <= Player.score p.
Proof.
  intros Hd. apply Sorted_StronglySorted in Hd;
    [|intros a b c; unfold score_ge; lia].
  revert n. induction Hd as [|x l Hl IH Hx]; intros [|n]; simpl; try done.
  intros [<-|Hp] Hq.
  - rewrite Forall_forall in Hx. apply Hx. apply list_elem_of_In.
    rewrite <- (take_drop n l). apply in_or_app. by right.
  - by apply (IH n).
Qed.

(** X10. The cut of the leaderboard is fair: the players left off the
    board are exactly the rest of the ranking, none of them has a higher
    score than anyone on the board, and with at most ten players nobody
    is left off. *)
Theorem getLeaderboard_cut db joinCode st :
  db !! session_key joinCode = Some st ->
  exists board rest,
    getLeaderboard joinCode db = (inr board, db) /\
    Permutation (board ++ rest)%list (JsObject.values (players st)) /\
    (forall p q, In p board -> In q rest -> Player.score q <= Player.score p) /\
    ((length (JsObject.values (players st)) <= 10)%nat -> rest = []).
Proof.
  intros Hk. set (ranking := sort_by_score (JsObject.values (players st))).
  exists (take 10 ranking), (drop 10 ranking).
  split; [unfold_engine; by rewrite Hk|].
  split; [rewrite take_drop; apply sort_by_score_Permutation|].
  split.
  - intros p q Hp Hq.
    apply (descending_take_drop 10 ranking); try done.
    apply sort_by_score_descending.
  - intros Hlen. apply drop_ge.
    unfold ranking.
    rewrite (Permutation_length (sort_by_score_Permutation _)). done.
Qed.

(** ** Starting, restarting and ending *)

(** X11. [startGame] checks no status and clears nothing but the
    index: called at any point of a game and followed by
    [nextQuestion], it puts up the first question of the quiz again
    (index 0, answers cleared) while the roster keeps every score; on a
    join code without a state it returns [null] and writes nothing. *)
Theorem startGame_restarts_with_scores db joinCode st now now' q0 :
  db !! session_key joinCode = Some st ->
  array_get (getQuizQuestions findQuiz (quizId st)) 0 = Some q0 ->
  exists st1 r,
    startGame joinCode now db
      = (inr (Some st1), <[session_key joinCode := st1]> db) /\
    status st1 = ACTIVE /\ startTime st1 = Some now /\
    currentQuestionIndex st1 = -1 /\
    players st1 = players st /\ answers st1 = answers st /\
    nextQuestion findQuiz joinCode now' (<[session_key joinCode := st1]> db)
      = (inr r, <[session_key joinCode := nq_state r]> db) /\
    question r = Some q0 /\
    status (nq_state r) = SHOWING_QUESTION /\
    currentQuestionIndex (nq_state r) = 0 /\
    answers (nq_state r) = JsObject.empty /\
    players (nq_state r) = players st.
Proof.
  intros Hk Hq0. unfold_engine. rewrite Hk. simpl.
  eexists _, (mkNextQuestion _ _ _). split; [reflexivity|]. simpl.
  repeat (split; [done|]).
  rewrite lookup_insert_eq. cbn -[array_get].
  change (-1 + 1) with 0. rewrite Hq0. cbn -[array_get].
  rewrite insert_insert_eq. done.
Qed.



(** ** Results, again *)

(** X13. [showResults] can be repeated: a second call right after a
    successful one returns the same distribution, count and state and
    leaves the same store, so nothing is counted twice. *)
Theorem showResults_repeatable db joinCode r :
  outcome (showResults findQuiz joinCode) db = inr r ->
  let db' := stored (showResults findQuiz joinCode) db in
  showResults findQuiz joinCode db' = (inr r, db').
Proof.
  unfold outcome, stored.
  destruct (db !! session_key joinCode) as [st|] eqn:Hk;
    [|unfold_engine; rewrite Hk; done].
  destruct (current_question findQuiz st) as [q|] eqn:Hq;
    [|unfold current_question in Hq; unfold_engine; rewrite Hk; simpl;
      rewrite Hq; done].
  rewrite (showResults_accepts db joinCode st q Hk Hq). simpl.
  intros [= <-].
  rewrite (showResults_accepts _ joinCode (set_status SHOWING_RESULTS st) q);
    [|apply lookup_insert_eq|done].
  simpl. by rewrite insert_insert_eq.
Qed.

(** X14. Once results are shown the answers are closed: after a
    successful [showResults] every [submitAnswer] on the session throws
    "Not accepting answers" and writes nothing, whoever answers and
    whatever the option. *)
Theorem answers_closed_after_results db joinCode r playerId optionIndex now :
  outcome (showResults findQuiz joinCode) db = inr r ->
  let db' := stored (showResults findQuiz joinCode) db in
  submitAnswer findQuiz joinCode playerId optionIndex now db'
    = (inl NotAcceptingAnswers, db').
Proof.
  unfold outcome, stored.
  destruct (db !! session_key joinCode) as [st|] eqn:Hk;
    [|unfold_engine; rewrite Hk; done].
  destruct (current_question findQuiz st) as [q|] eqn:Hq;
    [|unfold current_question in Hq; unfold_engine; rewrite Hk; simpl;
      rewrite Hq; done].
  rewrite (showResults_accepts db joinCode st q Hk Hq). simpl. intros _.
  apply (submitAnswer_wrong_phase _ _ _ _ _ (set_status SHOWING_RESULTS st));
    [apply lookup_insert_eq|done].
Qed.

(** ** Questions and answers, again *)

(** X15. A session whose quiz is unknown to the catalog, or has no
    questions, ends at once: [nextQuestion] returns no question and
    [totalQuestions = 0] and stores status ENDED. *)
Theorem nextQuestion_without_questions db joinCode st now :
  db !! session_key joinCode = Some st ->
  findQuiz (quizId st) = None \/ findQuiz (quizId st) = Some [] ->
  exists r,
    nextQuestion findQuiz joinCode now db
      = (inr r, <[session_key joinCode := nq_state r]> db) /\
    question r = None /\
    totalQuestions r = 0 /\
    status (nq_state r) = ENDED /\
    currentQuestionIndex (nq_state r) = currentQuestionIndex st + 1.
Proof.
  intros Hk Hquiz.
  assert (Hqs : getQuizQuestions findQuiz (quizId st) = []).
  { unfold getQuizQuestions. by destruct Hquiz as [-> | ->]. }
  unfold_engine. rewrite Hk. cbn -[array_get]. rewrite Hqs.
  assert (Hnone : forall i, array_get (@nil Question.t) i = None).
  { intros i. unfold array_get. by case_decide. }
  rewrite Hnone. by eexists (mkNextQuestion _ _ _).
Qed.



Lemma count_answers_nonneg i l : 0 <= count_answers i l.
Proof. unfold count_answers. lia. Qed.

Lemma count_answers_le i l : count_answers i l <= Z.of_nat (length l).
Proof.
  induction l as [|a l IH]; [done|].
  rewrite count_answers_cons. cbn [length]. case_decide; lia.
Qed.

(** X18. The two results of [showResults] agree: when the correct
    option is one of 0..3, [correctCount] is the entry of
    [answerDistribution] at the correct option; in any case no entry is
    negative and neither [correctCount] nor the sum of the entries
    exceeds the number of recorded answers. *)
Theorem showResults_counts_agree db joinCode r st :
  db !! session_key joinCode = Some st ->
  outcome (showResults findQuiz joinCode) db = inr r ->
  let n := Z.of_nat (length (JsObject.values (answers st))) in
  (0 <= sr_correctOptionIndex r < 4 ->
   answerDistribution r !! Z.to_nat (sr_correctOptionIndex r) = Some (correctCount r)) /\
  Forall (fun x => 0 <= x) (answerDistribution r) /\
  0 <= correctCount r <= n /\
  sum_list (answerDistribution r) <= n.
Proof.
  intros Hk. unfold outcome.
  destruct (current_question findQuiz st) as [q|] eqn:Hq;
    [|unfold current_question in Hq; unfold_engine; rewrite Hk; simpl;
      rewrite Hq; done].
  rewrite (showResults_accepts db joinCode st q Hk Hq). cbn [fst].
  intros [= <-]. cbn [sr_correctOptionIndex answerDistribution correctCount].
  split; [|split; [|split]].
  - intros Hc.
    assert (Question.correctOptionIndex q = 0 \/ Question.correctOptionIndex q = 1 \/
            Question.correctOptionIndex q = 2 \/ Question.correctOptionIndex q = 3)
      as [-> | [-> | [-> | ->]]] by lia; done.
  - cbn [map]. repeat constructor; apply count_answers_nonneg.
  - split; [apply count_answers_nonneg|apply count_answers_le].
  - pose proof (sum_buckets (JsObject.values (answers st))) as Hsum.
    cbn [map] in Hsum. rewrite Hsum. apply count_bucketed_le.
Qed.

Lemma timeBonus_antitone rt1 rt2 tl :
  1 <= tl -> rt1 <= rt2 -> (timeBonus rt2 tl <= timeBonus rt1 tl)%Q.
Proof.
  intros Htl Hrt. unfold timeBonus.
  assert (1 <= inject_Z tl)%Q by (by rewrite (Zle_Qle 1 tl) in Htl).
  assert (inject_Z rt1 <= inject_Z rt2)%Q by (by rewrite Zle_Qle in Hrt).
  assert (0 <= / (inject_Z tl * 1000))%Q by (apply Qinv_le_0_compat; lra).
  assert (inject_Z rt1 / (inject_Z tl * 1000) <= inject_Z rt2 / (inject_Z tl * 1000))%Q
    by (unfold Qdiv; by apply Qmult_le_compat_r).
  apply Q.max_le_compat_l. lra.
Qed.

Lemma score_points_antitone c rt1 rt2 tl :
  1 <= tl -> rt1 <= rt2 -> score_points c rt2 tl <= score_points c rt1 tl.
Proof.
  intros Htl Hrt. destruct c; [|done]. unfold score_points.
  apply Math_round_mono.
  pose proof (timeBonus_antitone rt1 rt2 tl Htl Hrt). lra.
Qed.

(** X19. Speed never costs points: for a question with a time limit of
    at least one second, of two possible answers by the same player with
    the same option, the one given at the earlier clock reading gets at
    least as many points as the later one. *)
Theorem faster_answer_scores_no_less db joinCode playerId optionIndex
    now1 now2 st q :
  db !! session_key joinCode = Some st ->
  status st = SHOWING_QUESTION ->
  JsObject.get (answers st) playerId = None ->
  current_question findQuiz st = Some q ->
  1 <= Question.timeLimit q ->
  now1 <= now2 ->
  exists correct score1 score2,
    outcome (submitAnswer findQuiz joinCode playerId optionIndex now1) db
      = inr (correct, score1) /\
    outcome (submitAnswer findQuiz joinCode playerId optionIndex now2) db
      = inr (correct, score2) /\
    score2 <= score1.
Proof.
  intros Hk Hst Hans Hq Htl Hnow. unfold outcome.
  rewrite !(submitAnswer_accepts db joinCode playerId optionIndex _ st q)
    by assumption.
  eexists _, _, _. split; [reflexivity|]. split; [reflexivity|].
  apply score_points_antitone; [done|].
  unfold or_now. destruct (questionStartTime st) as [t|]; [case_decide|]; lia.
Qed.

(** ** What a session keeps for life *)

Lemma run_identity c db key st :
  db !! key = Some st ->
  replaces c key = false ->
  exists st',
    run findQuiz c db !! key = Some st' /\
    sessionId st' = sessionId st /\ quizId st' = quizId st /\
    hostId st' = hostId st /\
    (status st <> WAITING -> status st' <> WAITING) /\
    (forall playerId,
       is_Some (JsObject.get (players st) playerId) ->
       is_Some (JsObject.get (players st') playerId)).
Proof.
  intros Hk Hrep.
  destruct (decide (command_key c = key)) as [Hkey|Hne].
  2:{ exists st. rewrite run_other_key by done. done. }
  unfold replaces in Hrep.
  destruct c; simpl in *; subst key; unfold_engine; simpl; try rewrite Hk; simpl.
  - by rewrite bool_decide_eq_true_2 in Hrep.
  - case_decide as Hst; simpl; [by exists st|].
    rewrite lookup_insert_eq. eexists. split; [done|]. simpl.
    repeat split; try done.
    intros pid Hp. destruct (decide (playerId = pid)) as [->|Hn].
    + rewrite JsObject_get_set_eq. by eexists.
    + by rewrite JsObject_get_set_ne.
  - rewrite lookup_insert_eq. eexists. split; [done|]. simpl. done.
  - rewrite lookup_insert_eq. eexists. split; [done|].
    destruct (array_get _ _); simpl; done.
  - case_decide as Hst; simpl; [by exists st|].
    destruct (JsObject.get (answers st) playerId); simpl; [by exists st|].
    destruct (array_get _ _); simpl; [|by exists st].
    rewrite lookup_insert_eq. eexists. split; [done|]. simpl.
    repeat split; try done.
    intros pid Hp. unfold add_score.
    destruct (JsObject.get (players st) playerId) as [p|] eqn:Hget; [|done].
    destruct (decide (playerId = pid)) as [->|Hn].
    + rewrite JsObject_get_set_eq. by eexists.
    + by rewrite JsObject_get_set_ne.
  - destruct (array_get _ _); simpl; [|by exists st].
    destruct (fold_left _ _ _). simpl.
    rewrite lookup_insert_eq. eexists. split; [done|]. simpl. done.
  - rewrite lookup_insert_eq. eexists. split; [done|]. simpl. done.
Qed.

Lemma run_all_identity cs db key st :
  db !! key = Some st ->
  same_session key cs ->
  exists st',
    run_all findQuiz cs db !! key = Some st' /\
    sessionId st' = sessionId st /\ quizId st' = quizId st /\
    hostId st' = hostId st /\
    (status st <> WAITING -> status st' <> WAITING) /\
    (forall playerId,
       is_Some (JsObject.get (players st) playerId) ->
       is_Some (JsObject.get (players st') playerId)).
Proof.
  revert db st. induction cs as [|c cs IH]; intros db st Hk Hcs; simpl.
  - by exists st.
  - inversion Hcs as [|? ? Hrep Hcs']; subst.
    destruct (run_identity c db key st Hk Hrep)
      as (st1 & Hk1 & Hs1 & Hq1 & Hh1 & Hw1 & Hp1).
    destruct (IH _ _ Hk1 Hcs') as (st' & Hk' & Hs' & Hq' & Hh' & Hw' & Hp').
    exists st'. split; [done|]. repeat split; try congruence; auto.
Qed.

(** Under calls that overlap the session keeps its identity: every
    write to the key was computed from a state read under the key. *)
Lemma overlapped_identity ms db key st :
  db !! key = Some st ->
  same_session_moves key ms ->
  let w := overlapped findQuiz ms db in
  (exists st',
     w_redis w !! key = Some st' /\
     sessionId st' = sessionId st /\ quizId st' = quizId st /\
     hostId st' = hostId st) /\
  Forall (fun kst =>
            kst.1 = key ->
            sessionId kst.2 = sessionId st /\ quizId kst.2 = quizId st /\
            hostId kst.2 = hostId st)
    (w_writes w).
Proof.
  intros Hk. induction ms as [|m ms IH] using rev_ind; intros Hms; simpl.
  - split; [by exists st|constructor].
  - unfold same_session_moves in Hms. apply Forall_app in Hms as [Hms Hm].
    apply Forall_inv in Hm.
    destruct (IH Hms) as [(st' & Hk' & Hs' & Hq' & Hh') IHw].
    rewrite overlapped_snoc.
    set (w := overlapped findQuiz ms db) in *.
    destruct m as [c|n]; simpl.
    + destruct (write_of findQuiz c (w_redis w)) as [st1|] eqn:Hw; simpl.
      2:{ split; [by exists st'|done]. }
      split; [by exists st'|].
      apply Forall_app. split; [done|]. constructor; [|constructor].
      simpl. intros Hkey.
      destruct (run_identity c (w_redis w) key st' Hk' Hm)
        as (st2 & Hk2 & Hs2 & Hq2 & Hh2 & _).
      rewrite run_write_of, Hw, Hkey, lookup_insert_eq in Hk2.
      injection Hk2 as <-. repeat split; congruence.
    + destruct (w_writes w !! n) as [[key' st1]|] eqn:Hn; simpl.
      2:{ split; [by exists st'|done]. }
      split; [|by apply Forall_delete].
      destruct (decide (key' = key)) as [->|Hne].
      * rewrite lookup_insert_eq. exists st1. split; [done|].
        rewrite Forall_lookup in IHw. by apply (IHw _ _ Hn).
      * rewrite lookup_insert_ne by done. by exists st'.
Qed.

Lemma write_of_joinSession db joinCode nickname playerId st :
  db !! session_key joinCode = Some st ->
  status st = WAITING ->
  write_of findQuiz (JoinSession joinCode nickname playerId) db
  = Some (set_players
            (JsObject.set (players st) playerId (Player.mk playerId nickname 0)) st).
Proof.
  intros Hk Hst. unfold write_of. simpl. unfold_engine. rewrite Hk. simpl.
  rewrite decide_False by (by rewrite Hst; intros []).
  simpl. by rewrite lookup_insert_eq.
Qed.

Lemma write_of_startGame db joinCode now st :
  db !! session_key joinCode = Some st ->
  write_of findQuiz (StartGame joinCode now) db
  = Some (set_currentQuestionIndex (-1)
            (set_startTime (Some now) (set_status ACTIVE st))).
Proof.
  intros Hk. unfold write_of. simpl. unfold_engine. rewrite Hk. simpl.
  by rewrite lookup_insert_eq.
Qed.

(** X20. Nothing deletes a session, and calls that do not overlap
    delete no player.  Through every history of calls, overlapping or
    not, that opens no new session under the same join code, the session
    stays in Redis with its [sessionId], [quizId] and [hostId]; if the
    calls run one after the other, every player of the roster stays on
    the roster.  Two [joinSession] calls that overlap lose a player: when
    both are served their [GET] before either writes, the player who was
    on the stored roster after the first write is off it after the
    second. *)
Theorem session_and_roster_persist ms cs db joinCode st :
  db !! session_key joinCode = Some st ->
  (same_session_moves (session_key joinCode) ms ->
   exists st',
     w_redis (overlapped findQuiz ms db) !! session_key joinCode = Some st' /\
     sessionId st' = sessionId st /\ quizId st' = quizId st /\
     hostId st' = hostId st) /\
  (same_session (session_key joinCode) cs ->
   exists st',
     run_all findQuiz cs db !! session_key joinCode = Some st' /\
     sessionId st' = sessionId st /\ quizId st' = quizId st /\
     hostId st' = hostId st /\
     forall playerId,
       is_Some (JsObject.get (players st) playerId) ->
       is_Some (JsObject.get (players st') playerId)) /\
  (forall nickname1 playerId1 nickname2 playerId2,
     status st = WAITING ->
     playerId1 <> playerId2 ->
     JsObject.get (players st) playerId1 = None ->
     let joins :=
       [Begin (JoinSession joinCode nickname1 playerId1);
        Begin (JoinSession joinCode nickname2 playerId2)] in
     exists st1 st2,
       w_redis (overlapped findQuiz (joins ++ [Land 0])%list db)
         !! session_key joinCode = Some st1 /\
       JsObject.get (players st1) playerId1
         = Some (Player.mk playerId1 nickname1 0) /\
       w_redis (overlapped findQuiz (joins ++ [Land 0; Land 0])%list db)
         !! session_key joinCode = Some st2 /\
       JsObject.get (players st2) playerId1 = None /\
       JsObject.get (players st2) playerId2
         = Some (Player.mk playerId2 nickname2 0)).
Proof.
  intros Hk. split; [|split].
  - intros Hms. by destruct (overlapped_identity ms db _ st Hk Hms) as [H _].
  - intros Hcs.
    destruct (run_all_identity cs db _ st Hk Hcs)
      as (st' & Hk' & Hs' & Hq' & Hh' & _ & Hp').
    by exists st'.
  - intros nickname1 playerId1 nickname2 playerId2 Hst Hne Hp1 joins.
    unfold joins, overlapped. simpl.
    rewrite !(write_of_joinSession db joinCode _ _ st) by assumption.
    simpl. rewrite !lookup_insert_eq.
    eexists _, _. split; [reflexivity|]. simpl.
    split; [apply JsObject_get_set_eq|]. split; [reflexivity|]. simpl.
    split; [by rewrite JsObject_get_set_ne|apply JsObject_get_set_eq].
Qed.

(** X21. Between calls that do not overlap the lobby closes for good:
    once the status of a session is not WAITING, no history of calls
    that run one after the other brings WAITING back, so every later
    [joinSession] throws "Game already started" and writes nothing.  A
    [joinSession] that overlaps [startGame] opens the lobby again: served
    its [GET] in WAITING, it writes WAITING over the ACTIVE that
    [startGame] has stored, and later joins are accepted. *)
Theorem no_join_after_start cs db joinCode st nickname playerId :
  db !! session_key joinCode = Some st ->
  (status st <> WAITING ->
   same_session (session_key joinCode) cs ->
   let db' := run_all findQuiz cs db in
   joinSession joinCode nickname playerId db' = (inl GameAlreadyStarted, db')) /\
  (status st = WAITING ->
   forall now,
     let calls :=
       [Begin (JoinSession joinCode nickname playerId);
        Begin (StartGame joinCode now)] in
     let db1 := w_redis (overlapped findQuiz (calls ++ [Land 1])%list db) in
     let db2 := w_redis (overlapped findQuiz (calls ++ [Land 1; Land 0])%list db) in
     exists st1 st2,
       db1 !! session_key joinCode = Some st1 /\ status st1 = ACTIVE /\
       db2 !! session_key joinCode = Some st2 /\ status st2 = WAITING /\
       forall nickname' playerId',
         exists st3,
           joinSession joinCode nickname' playerId' db2
             = (inr st3, <[session_key joinCode := st3]> db2)).
Proof.
  intros Hk. split.
  - intros Hst Hcs db'.
    destruct (run_all_identity cs db _ st Hk Hcs)
      as (st' & Hk' & _ & _ & _ & Hw' & _).
    fold db' in Hk'. unfold_engine. rewrite Hk'. simpl.
    by rewrite decide_True by auto.
  - intros Hst now calls db1 db2.
    unfold db1, db2, calls, overlapped. simpl.
    rewrite (write_of_joinSession db joinCode _ _ st) by assumption.
    simpl. rewrite (write_of_startGame db joinCode now st) by assumption.
    simpl. rewrite !lookup_insert_eq.
    eexists _, _. split; [reflexivity|]. split; [reflexivity|].
    split; [reflexivity|]. split; [done|].
    intros nickname' playerId'. unfold_engine.
    rewrite lookup_insert_eq. simpl.
    rewrite decide_False by (by rewrite Hst; intros []).
    by eexists.
Qed.

(** ** Opening a session *)

(** X22. For a join code that is not in use, [createSession] returns
    the code and stores an empty lobby under it: status WAITING, index
    -1, no players, no answers, no times, an empty leaderboard; the first
    [joinSession] on it makes a roster of one.  All other sessions are
    left as they were. *)
Theorem createSession_opens_empty_lobby db quizId0 hostId0 joinCode newSessionId :
  db !! session_key joinCode = None ->
  let fresh :=
    mkGameState newSessionId quizId0 hostId0 WAITING (-1)
      JsObject.empty JsObject.empty None None in
  let db' := stored (createSession quizId0 hostId0 joinCode newSessionId) db in
  outcome (createSession quizId0 hostId0 joinCode newSessionId) db = inr joinCode /\
  getSession joinCode db' = (inr (Some fresh), db') /\
  outcome (getLeaderboard joinCode) db' = inr [] /\
  (forall other, other <> joinCode ->
     db' !! session_key other = db !! session_key other) /\
  (forall nickname playerId,
     exists st,
       joinSession joinCode nickname playerId db'
         = (inr st, <[session_key joinCode := st]> db') /\
       JsObject.values (players st) = [Player.mk playerId nickname 0]).
Proof.
  intros _ fresh db'.
  assert (Hk : db' !! session_key joinCode = Some fresh) by apply lookup_insert_eq.
  split; [done|]. split; [unfold_engine; by rewrite Hk|].
  split; [unfold_engine; by rewrite Hk|]. split.
  - intros other Hne. unfold db'. unfold_engine. simpl.
    apply lookup_insert_ne. intros Heq. by apply session_key_inj in Heq.
  - intros nickname playerId. unfold_engine. rewrite Hk. simpl. by eexists.
Qed.

(** ** The gateway *)

Ltac unfold_gateway :=
  unfold handle, on_create_game, on_join_game, on_start_game, on_next_question,
    on_submit_answer, on_show_results, on_get_leaderboard, on_disconnect, caught.

(** X23. A command that the engine rejects is answered and nothing
    else happens: when the engine call of a command throws one of the
    engine's own errors (the call is then a [joinSession],
    [nextQuestion], [submitAnswer] or [showResults]), the handler's only
    output is the acknowledgement [{ success: false, error }] with the
    message of the error; nothing is broadcast, the connection joins no
    room and records nothing, and Redis is as it was. *)
Theorem rejected_command_only_acknowledged m c s db e :
  engine_call m = Some c ->
  thrown findQuiz c db = Some e ->
  raises c = true /\
  handle findQuiz m s db = mkHandled [Callback (failure (message e))] s db.
Proof.
  intros Hc Hthrown.
  pose proof (thrown_writes_nothing_aux c db e Hthrown) as Hrun.
  destruct m; simpl in Hc; try discriminate; injection Hc as <-;
    simpl in Hthrown, Hrun; unfold outcome, stored in *; unfold_gateway.
  - exfalso. unfold_engine. done.
  - split; [done|].
    destruct (joinSession _ _ _ db) as [[e'|v] db']; simpl in *; congruence.
  - exfalso. unfold_engine. destruct (db !! session_key joinCode); done.
  - split; [done|].
    destruct (nextQuestion _ _ _ db) as [[e'|v] db']; simpl in *; congruence.
  - split; [done|].
    destruct (submitAnswer _ _ _ _ _ db) as [[e'|v] db']; simpl in *; congruence.
  - split; [done|].
    destruct (showResults _ _ db) as [[e'|v] db']; simpl in *; congruence.
Qed.

(** X24. Every command is acknowledged exactly once, and nothing goes
    to a foreign room: whatever the engine answers, the outputs of a
    command handler contain one [callback], and every broadcast goes to
    the room of the join code in the command's payload; a disconnect is
    not acknowledged and broadcasts only to the room recorded on the
    connection. *)
Theorem one_callback_and_own_room m s db :
  let out := outputs (handle findQuiz m s db) in
  (m <> disconnect -> exists reply, callbacks out = [reply]) /\
  (m = disconnect -> callbacks out = []) /\
  (forall room, In room (broadcast_rooms out) ->
     match inbound_joinCode m with
     | Some joinCode => room = joinCode
     | None => data_joinCode s = Some room
     end).
Proof.
  destruct m; cbn [handle inbound_joinCode]; unfold_gateway;
    repeat case_match; cbn [outputs callbacks broadcast_rooms omap list_omap];
    (split; [first [done | by intros; eexists] |]);
    (split; [done |]); intros room; simpl; intuition congruence.
Qed.





Lemma truthy_Some s : truthy (Some s) = true <-> s <> "".
Proof.
  unfold truthy. rewrite negb_true_iff. rewrite String.eqb_neq. done.
Qed.

(** X28. A disconnect is announced but changes no game state: after a
    player has joined through [join_game], the connection is in the room
    of the join code, and its disconnect broadcasts
    [player_disconnected] with the player's id to that room (nothing at
    all when the join code or the player id is the empty string, which
    the condition takes for absent); Redis is not touched, so the player
    stays on the roster with the entry written by the join. *)
Theorem disconnect_keeps_the_player joinCode nickname playerId s db st :
  db !! session_key joinCode = Some st ->
  status st = WAITING ->
  let h := handle findQuiz (join_game joinCode nickname playerId) s db in
  let h' := handle findQuiz disconnect (socket_after h) (redis_after h) in
  joinCode ∈ rooms (socket_after h) /\
  (joinCode <> "" -> playerId <> "" ->
   outputs h' = [Broadcast joinCode (player_disconnected playerId)]) /\
  (joinCode = "" \/ playerId = "" -> outputs h' = []) /\
  redis_after h' = redis_after h /\
  socket_after h' = socket_after h /\
  exists st',
    redis_after h' !! session_key joinCode = Some st' /\
    JsObject.get (players st') playerId = Some (Player.mk playerId nickname 0).
Proof.
  intros Hk Hst. cbn [handle]. unfold on_join_game.
  unfold joinSession, bind, redis_get, redis_set, ret, throw. rewrite Hk.
  rewrite decide_False by (by rewrite Hst; intros []).
  cbn [socket_after redis_after outputs]. unfold on_disconnect.
  cbn [data_joinCode data_playerId rooms socket_join].
  split; [set_solver|].
  split; [|split].
  - intros Hj Hp. apply truthy_Some in Hj, Hp. by rewrite Hj, Hp.
  - intros Hempty.
    destruct (truthy (Some joinCode)) eqn:Hj, (truthy (Some playerId)) eqn:Hp;
      try done.
    apply truthy_Some in Hj, Hp. by destruct Hempty.
  - assert (Hsame : forall out1 out2 s' db',
              redis_after (if truthy (Some joinCode) && truthy (Some playerId)
                           then mkHandled out1 s' db' else mkHandled out2 s' db') = db' /\
              socket_after (if truthy (Some joinCode) && truthy (Some playerId)
                            then mkHandled out1 s' db' else mkHandled out2 s' db') = s').
    { intros. by destruct (truthy _ && truthy _). }
    rewrite !(proj1 (Hsame _ _ _ _)), !(proj2 (Hsame _ _ _ _)).
    split; [done|]. split; [done|].
    eexists. split; [apply lookup_insert_eq|]. simpl. apply JsObject_get_set_eq.
Qed.

(** X29. [get_leaderboard] cannot fail and writes nothing: it always
    broadcasts [leaderboard_update] to the room and acknowledges with
    the same list, which is empty for a join code that Redis does not
    hold. *)
Theorem get_leaderboard_always_answers joinCode s db :
  let h := handle findQuiz (get_leaderboard joinCode) s db in
  exists board,
    outputs h =
      [Broadcast joinCode (leaderboard_update board);
       Callback (leaderboard_reply board)] /\
    outcome (getLeaderboard joinCode) db = inr board /\
    redis_after h = db /\
    socket_after h = s /\
    (length board <= 10)%nat /\
    (db !! session_key joinCode = None -> board = []).
Proof.
  cbn [handle]. unfold on_get_leaderboard. unfold_engine.
  destruct (db !! session_key joinCode) as [st|]; simpl.
  - eexists. repeat split; try done. rewrite length_take. lia.
  - eexists. repeat split; try done. simpl. lia.
Qed.

(** ** The session ledger *)



End EngineFacts.

(** ** The sample sessions *)


Example score_points_samples :
  score_points true 0 20 = 1500 /\
  score_points true 10000 20 = 1250 /\
  score_points true 20 20 = 1500 /\
  score_points true 21 20 = 1499 /\
  score_points true 25000 20 = 1000 /\
  score_points false 0 20 = 0.
Proof. vm_compute. done. Qed.

(** Players of equal score keep their order. *)
Example sort_by_score_stable :
  map Player.id
    (sort_by_score
       [Player.mk "a" "A" 5; Player.mk "b" "B" 7; Player.mk "c" "C" 5;
        Player.mk "d" "D" 9])
  = ["d"; "b"; "a"; "c"].
Proof. reflexivity. Qed.


(** Outside the two conditions the formula leaves the range: a clock
    reading one second before the start of a 20-second question, and a
    time limit of -10 seconds. *)
Example score_points_outside :
  score_points true (-1000) 20 = 1525 /\
  score_points true 5000 (-10) = 1750.
Proof. vm_compute. done. Qed.


Lemma submitAnswer_failures_witness :
  exists correct points,
    outcome (submitAnswer sample_findQuiz "123456" "P1" 0 7000) sample_asking
      = inr (correct, points) /\
    let db1 := stored (submitAnswer sample_findQuiz "123456" "P1" 0 7000) sample_asking in
    forall optionIndex' now',
      outcome (submitAnswer sample_findQuiz "123456" "P1" optionIndex' now') db1
        = inl AlreadyAnswered /\
      let db2 :=
        stored (submitAnswer sample_findQuiz "123456" "P1" optionIndex' now') db1 in
      db2 = db1 /\
      stored_score db2 "123456" "P1"
        = (fun s => s + points) <$> stored_score sample_asking "123456" "P1".
Proof.
  destruct (submitAnswer_failures sample_findQuiz sample_asking "123456" "P1" 0 7000)
    as (_ & _ & _ & Htwice).
  apply (Htwice sample_asking_state question1).
  - vm_compute. reflexivity.
  - reflexivity.
  - reflexivity.
  - reflexivity.
  - simpl. lia.
Defined.

Lemma sample_overrun_reachable : reachable sample_findQuiz sample_overrun.
Proof. apply reachable_run_all. constructor. Qed.

(** C4, as stated, fails: after four [nextQuestion] calls on the
    two-question sample quiz the stored index is 3, above the number of
    questions. *)
Lemma currentQuestionIndex_exceeds_questionCount :
  ~ (forall db key st,
       reachable sample_findQuiz db ->
       db !! key = Some st ->
       -1 <= currentQuestionIndex st <= questionCount sample_findQuiz st).
Proof.
  intros Hall.
  destruct (sample_overrun !! session_key "123456") as [st|] eqn:Hk;
    [|vm_compute in Hk; discriminate].
  pose proof (Hall _ _ _ sample_overrun_reachable Hk) as Hbound.
  vm_compute in Hk. injection Hk as <-.
  vm_compute in Hbound. destruct Hbound as [_ Hle]. by apply Hle.
Qed.

Lemma currentQuestionIndex_invariant_witness :
  -1 <= currentQuestionIndex sample_asking_state /\
  (questionCount sample_findQuiz sample_asking_state
     <= currentQuestionIndex sample_asking_state ->
   status sample_asking_state = ENDED) /\
  (forall c,
     replaces c (session_key "123456") = false ->
     exists st',
       run sample_findQuiz c sample_asking !! session_key "123456" = Some st' /\
       if restarts c (session_key "123456")
       then currentQuestionIndex st' = -1
       else currentQuestionIndex sample_asking_state <= currentQuestionIndex st') /\
  (forall joinCode playerId optionIndex now now',
     session_key joinCode = session_key "123456" ->
     status sample_asking_state = SHOWING_QUESTION ->
     JsObject.get (answers sample_asking_state) playerId = None ->
     let calls :=
       [Begin (SubmitAnswer joinCode playerId optionIndex now);
        Begin (NextQuestion joinCode now')] in
     exists st1 st2,
       w_redis (overlapped sample_findQuiz (calls ++ [Land 1])%list sample_asking)
         !! session_key "123456" = Some st1 /\
       currentQuestionIndex st1 = currentQuestionIndex sample_asking_state + 1 /\
       w_redis (overlapped sample_findQuiz (calls ++ [Land 1; Land 0])%list sample_asking)
         !! session_key "123456" = Some st2 /\
       currentQuestionIndex st2 = currentQuestionIndex sample_asking_state).
Proof.
  apply (currentQuestionIndex_invariant sample_findQuiz sample_asking
           (session_key "123456") sample_asking_state).
  - apply reachable_attainable, reachable_run_all, reachable_run_all, reachable_empty.
  - vm_compute. reflexivity.
Defined.

(** C8, as stated, fails: the answers of Alice and Bob are both served
    before either is written; Alice's write stores her 1425 points, and
    Bob's write, computed from the state he was served, puts her score
    back to 0. *)
Lemma score_lowered_by_overlapping_call :
  ~ (forall ms m joinCode playerId s s',
       stored_score (w_redis (overlapped sample_findQuiz ms ∅)) joinCode playerId
         = Some s ->
       stored_score (w_redis (overlapped sample_findQuiz (ms ++ [m])%list ∅))
         joinCode playerId = Some s' ->
       s <= s').
Proof.
  intros Hall.
  pose proof (Hall (sample_two_in_flight ++ [Land 0%nat])%list (Land 0) "123456" "P1"
                1425 0) as Hle.
  assert (1425 <= 0); [|lia].
  apply Hle; vm_compute; reflexivity.
Qed.

Lemma score_never_decreases_witness :
  (exists st',
     run sample_findQuiz (SubmitAnswer "123456" "P1" 0 7000) sample_asking
       !! session_key "123456" = Some st' /\
     scores_kept sample_asking_state st') /\
  (forall joinCode playerId optionIndex now correct points,
     outcome (submitAnswer sample_findQuiz joinCode playerId optionIndex now)
       sample_asking = inr (correct, points) ->
     0 <= points) /\
  (forall joinCode nickname playerId r,
     session_key joinCode = session_key "123456" ->
     outcome (joinSession joinCode nickname playerId) sample_asking = inr r ->
     status sample_asking_state = WAITING) /\
  (status sample_asking_state = WAITING -> scores_zero sample_asking_state).
Proof.
  apply (score_never_decreases sample_findQuiz sample_asking (session_key "123456")
           sample_asking_state (SubmitAnswer "123456" "P1" 0 7000)).
  - intros quizId0 questions q. unfold sample_findQuiz.
    case_decide; [|done]. intros [= <-] [<-|[<-|[]]]; simpl; lia.
  - apply reachable_attainable, reachable_run_all, reachable_run_all, reachable_empty.
  - vm_compute. reflexivity.
  - reflexivity.
Defined.

Lemma nextQuestion_kth_witness :
  let db :=
    run_all sample_findQuiz
      [NextQuestion "123456" 2000; SubmitAnswer "123456" "P1" 0 2500;
       ShowResults "123456"]
      (run sample_findQuiz (StartGame "123456" 1000) sample_lobby) in
  exists r,
    nextQuestion sample_findQuiz "123456" 4000 db
      = (inr r, <[session_key "123456" := nq_state r]> db) /\
    totalQuestions r = 2 /\
    currentQuestionIndex (nq_state r) = 2 - 1 /\
    answers (nq_state r) = JsObject.empty /\
    questionStartTime (nq_state r) = Some 4000 /\
    (1 <= 2 <= 2 ->
       status (nq_state r) = SHOWING_QUESTION /\
       is_Some (question r) /\
       question r = getQuizQuestions sample_findQuiz "quiz-1" !! Z.to_nat (2 - 1)) /\
    (2 = 2 + 1 -> question r = None /\ status (nq_state r) = ENDED).
Proof.
  apply (nextQuestion_kth sample_findQuiz sample_lobby "123456" 1000
           [NextQuestion "123456" 2000; SubmitAnswer "123456" "P1" 0 2500;
            ShowResults "123456"]
           4000 sample_lobby_state 2).
  - vm_compute. reflexivity.
  - vm_compute. discriminate.
  - repeat constructor.
  - reflexivity.
Defined.

Lemma sample_ended_lookup :
  sample_ended !! session_key "123456" = Some sample_ended_state.
Proof. vm_compute. reflexivity. Qed.

(** C3, as stated, fails: on the ended sample game [startGame] does not
    throw and replaces the stored state by an ACTIVE one, and
    [nextQuestion] does not throw and stores a higher index. *)
Lemma ENDED_not_terminal :
  ~ (forall db joinCode st now,
       db !! session_key joinCode = Some st ->
       status st = ENDED ->
       (exists e, outcome (startGame joinCode now) db = inl e) /\
       stored (startGame joinCode now) db = db /\
       (exists e, outcome (nextQuestion sample_findQuiz joinCode now) db = inl e) /\
       stored (nextQuestion sample_findQuiz joinCode now) db = db).
Proof.
  intros Hall.
  destruct (Hall sample_ended "123456" sample_ended_state 9000
              sample_ended_lookup eq_refl) as ([e He] & _).
  vm_compute in He. discriminate.
Qed.

Lemma ENDED_operations_witness :
  (forall nickname playerId,
     joinSession "123456" nickname playerId sample_ended
       = (inl GameAlreadyStarted, sample_ended)) /\
  (forall playerId optionIndex now,
     submitAnswer sample_findQuiz "123456" playerId optionIndex now sample_ended
       = (inl NotAcceptingAnswers, sample_ended)) /\
  (current_question sample_findQuiz sample_ended_state = None ->
     showResults sample_findQuiz "123456" sample_ended
       = (inl NoCurrentQuestion, sample_ended)) /\
  getSession "123456" sample_ended = (inr (Some sample_ended_state), sample_ended) /\
  getLeaderboard "123456" sample_ended
    = (inr (take 10 (sort_by_score (JsObject.values (players sample_ended_state)))),
       sample_ended) /\
  (forall now,
     exists st',
       startGame "123456" now sample_ended
         = (inr (Some st'), <[session_key "123456" := st']> sample_ended) /\
       status st' = ACTIVE /\
       currentQuestionIndex st' = -1) /\
  (forall now,
     exists r,
       nextQuestion sample_findQuiz "123456" now sample_ended
         = (inr r, <[session_key "123456" := nq_state r]> sample_ended) /\
       currentQuestionIndex (nq_state r) = currentQuestionIndex sample_ended_state + 1 /\
       answers (nq_state r) = JsObject.empty) /\
  (is_Some (current_question sample_findQuiz sample_ended_state) ->
     exists r,
       showResults sample_findQuiz "123456" sample_ended
         = (inr r, <[session_key "123456" := sr_state r]> sample_ended) /\
       status (sr_state r) = SHOWING_RESULTS).
Proof.
  apply (ENDED_operations sample_findQuiz sample_ended "123456" sample_ended_state).
  - vm_compute. reflexivity.
  - reflexivity.
Defined.

(** C7, as stated, fails: for the true/false question, which has two
    options, [showResults] still returns four buckets. *)
Lemma answerDistribution_not_sized_to_options :
  ~ (forall db joinCode st q r,
       db !! session_key joinCode = Some st ->
       current_question tf_findQuiz st = Some q ->
       outcome (showResults tf_findQuiz joinCode) db = inr r ->
       length (answerDistribution r) = length (Question.options q)).
Proof.
  intros Hall.
  assert (Hk : tf_asking !! session_key "654321" = Some tf_asking_state)
    by (vm_compute; reflexivity).
  destruct (outcome (showResults tf_findQuiz "654321") tf_asking) as [e|r] eqn:Hr;
    [vm_compute in Hr; discriminate|].
  pose proof (Hall tf_asking "654321" tf_asking_state question_tf r Hk eq_refl Hr)
    as Hlen.
  vm_compute in Hr. injection Hr as <-. simpl in Hlen. discriminate.
Qed.

Lemma showResults_distribution_witness :
  exists r,
    showResults sample_findQuiz "123456" sample_answered
      = (inr r, <[session_key "123456" := sr_state r]> sample_answered) /\
    sr_state r = set_status SHOWING_RESULTS sample_answered_state /\
    status (sr_state r) = SHOWING_RESULTS /\
    sr_correctOptionIndex r = Question.correctOptionIndex question2 /\
    length (answerDistribution r) = 4%nat /\
    (forall i, 0 <= i < 4 ->
       answerDistribution r !! Z.to_nat i
         = Some (count_answers i (JsObject.values (answers sample_answered_state)))) /\
    correctCount r
      = count_answers (Question.correctOptionIndex question2)
          (JsObject.values (answers sample_answered_state)) /\
    (map Answer.optionIndex (JsObject.values (answers sample_answered_state))
       = [0; 1; 1] ->
     Question.correctOptionIndex question2 = 1 ->
     answerDistribution r = [1; 2; 0; 0] /\ correctCount r = 2).
Proof.
  apply (showResults_distribution sample_findQuiz sample_answered "123456"
           sample_answered_state question2).
  - vm_compute. reflexivity.
  - reflexivity.
Defined.

Lemma getLeaderboard_top10_witness :
  exists board,
    getLeaderboard "123456" sample_crowded = (inr board, sample_crowded) /\
    (exists ranking,
       Permutation ranking (JsObject.values sample_crowd) /\ descending ranking /\
       board = take 10 ranking) /\
    descending board /\
    length board = Nat.min (length (JsObject.values sample_crowd)) 10 /\
    (length (JsObject.values sample_crowd) = 15%nat ->
     length board = 10%nat /\
     exists top rest,
       board = top :: rest /\
       forall p, In p (JsObject.values sample_crowd) ->
                 Player.score p <= Player.score top).
Proof.
  destruct (getLeaderboard_top10 sample_crowded "123456") as [_ Hsome].
  apply (Hsome sample_crowd_state).
  vm_compute. reflexivity.
Defined.

Lemma submitAnswer_any_optionIndex_witness :
  exists q correct points st1,
    current_question sample_findQuiz sample_asking_state = Some q /\
    submitAnswer sample_findQuiz "123456" "P2" (-7) 9000 sample_asking
      = (inr (correct, points), <[session_key "123456" := st1]> sample_asking) /\
    JsObject.get (answers st1) "P2"
      = Some (Answer.mk "P2" (-7)
                (9000 - or_now (questionStartTime sample_asking_state) 9000)) /\
    (-7 <> Question.correctOptionIndex q -> correct = false /\ points = 0) /\
    exists r db2,
      showResults sample_findQuiz "123456"
        (<[session_key "123456" := st1]> sample_asking) = (inr r, db2) /\
      sum_list (answerDistribution r)
        = count_bucketed (JsObject.values (answers st1)) /\
      (~ (0 <= -7 < 4) ->
       sum_list (answerDistribution r)
         < Z.of_nat (length (JsObject.values (answers st1)))).
Proof.
  apply (submitAnswer_any_optionIndex sample_findQuiz sample_asking "123456" "P2"
           (-7) 9000 sample_asking_state).
  - apply reachable_run_all, reachable_run_all, reachable_empty.
  - vm_compute. reflexivity.
  - reflexivity.
  - reflexivity.
Defined.

Lemma sample_racing : racing sample_findQuiz sample_asking "123456" alice_call bob_call.
Proof.
  exists sample_asking_state, question1.
  split; [vm_compute; reflexivity|].
  repeat split; first [done | simpl; lia].
Qed.

(** C2, as stated, fails: when the replies to both [GET]s are served
    before Alice's and then Bob's call resume, both calls return
    successfully and the stored state has no answer of Alice. *)
Lemma submitAnswer_update_lost :
  ~ (forall db joinCode a b es,
       racing sample_findQuiz db joinCode a b ->
       In es interleavings ->
       let sys := schedule sample_findQuiz es a b db in
       answer_recorded (redis sys) joinCode (call_playerId a) (call_optionIndex a) /\
       answer_recorded (redis sys) joinCode (call_playerId b) (call_optionIndex b)).
Proof.
  intros Hall.
  destruct (Hall sample_asking "123456" alice_call bob_call
              [Serve CallerA; Serve CallerB; Resume CallerA; Resume CallerB]
              sample_racing) as [(st & ans & Hst & Hans & _) _].
  { right. left. reflexivity. }
  vm_compute in Hst. injection Hst as <-.
  vm_compute in Hans. discriminate.
Qed.

Lemma submitAnswer_atomic_when_serial_witness :
  let es := [Serve CallerA; Serve CallerB; Resume CallerA; Resume CallerB] in
  let sys := schedule sample_findQuiz es alice_call bob_call sample_asking in
  (serial es ->
   update_present sample_asking (redis sys) (flightA sys) /\
   update_present sample_asking (redis sys) (flightB sys)) /\
  (~ serial es ->
   (last_resumed es = Some CallerA ->
    update_present sample_asking (redis sys) (flightA sys) /\
    update_lost sample_asking (redis sys) (flightB sys)) /\
   (last_resumed es = Some CallerB ->
    update_lost sample_asking (redis sys) (flightA sys) /\
    update_present sample_asking (redis sys) (flightB sys)) /\
   is_Some (last_resumed es)).
Proof.
  apply (submitAnswer_atomic_when_serial sample_findQuiz sample_asking "123456"
           alice_call bob_call).
  - exists sample_asking_state, question1.
    split; [vm_compute; reflexivity|].
    repeat split; first [done | simpl; lia].
  - right. left. reflexivity.
Defined.

(** ** The sample sessions, continued *)

Lemma thrown_writes_nothing_witness :
  raises (JoinSession "123456" "Eve" "P9") = true /\
  run sample_findQuiz (JoinSession "123456" "Eve" "P9") sample_asking = sample_asking.
Proof.
  apply (thrown_writes_nothing sample_findQuiz (JoinSession "123456" "Eve" "P9")
           sample_asking GameAlreadyStarted).
  vm_compute. reflexivity.
Defined.

Lemma other_sessions_untouched_witness :
  getSession "123456" (run_all sample_findQuiz other_game sample_asking)
  = (inr (sample_asking !! session_key "123456"),
     run_all sample_findQuiz other_game sample_asking).
Proof.
  apply (other_sessions_untouched sample_findQuiz other_game sample_asking "123456").
  repeat constructor; simpl; discriminate.
Defined.

Lemma roster_and_answers_keyed_witness :
  (forall playerId p,
     JsObject.get (players sample_asking_state) playerId = Some p ->
     Player.id p = playerId) /\
  (forall playerId a,
     JsObject.get (answers sample_asking_state) playerId = Some a ->
     Answer.playerId a = playerId) /\
  NoDup (JsObject.keys (players sample_asking_state)) /\
  NoDup (JsObject.keys (answers sample_asking_state)).
Proof.
  apply (roster_and_answers_keyed sample_findQuiz sample_asking "123456").
  - apply reachable_run_all, reachable_run_all, reachable_empty.
  - vm_compute. reflexivity.
Defined.

Lemma nothing_to_show_before_first_question_witness :
  currentQuestionIndex sample_lobby_state = -1 /\
  showResults sample_findQuiz "123456" sample_lobby
    = (inl NoCurrentQuestion, sample_lobby) /\
  forall playerId optionIndex now,
    submitAnswer sample_findQuiz "123456" playerId optionIndex now sample_lobby
      = (inl NotAcceptingAnswers, sample_lobby).
Proof.
  apply (nothing_to_show_before_first_question sample_findQuiz sample_lobby "123456"
           sample_lobby_state).
  - apply reachable_run_all, reachable_empty.
  - vm_compute. reflexivity.
  - left. reflexivity.
Defined.

Lemma shown_question_is_there_witness :
  exists q t r,
    current_question sample_findQuiz sample_asking_state = Some q /\
    questionStartTime sample_asking_state = Some t /\
    0 <= currentQuestionIndex sample_asking_state
      < questionCount sample_findQuiz sample_asking_state /\
    outcome (showResults sample_findQuiz "123456") sample_asking = inr r /\
    sr_correctOptionIndex r = Question.correctOptionIndex q.
Proof.
  apply (shown_question_is_there sample_findQuiz sample_asking "123456"
           sample_asking_state).
  - apply reachable_run_all, reachable_run_all, reachable_empty.
  - vm_compute. reflexivity.
  - left. reflexivity.
Defined.

Lemma joinSession_upserts_witness :
  exists st',
    joinSession "123456" "Bobby" "P2" sample_lobby
      = (inr st', <[session_key "123456" := st']> sample_lobby) /\
    JsObject.get (players st') "P2" = Some (Player.mk "P2" "Bobby" 0) /\
    JsObject.keys (players st') = JsObject.keys (players sample_lobby_state).
Proof.
  destruct (joinSession_upserts sample_lobby "123456" "Bobby" "P2" sample_lobby_state)
    as (st' & Hjoin & _ & Hentry & _ & _ & Hkeys).
  - vm_compute. reflexivity.
  - reflexivity.
  - vm_compute. reflexivity.
  - exists st'. split; [exact Hjoin|]. split; [exact Hentry|].
    apply Hkeys. vm_compute. eexists. reflexivity.
Defined.

Lemma lobby_leaderboard_in_joining_order_witness :
  getLeaderboard "123456" sample_lobby
  = (inr (take 10 (JsObject.values (players sample_lobby_state))), sample_lobby).
Proof.
  apply (lobby_leaderboard_in_joining_order sample_findQuiz sample_lobby "123456"
           sample_lobby_state).
  - apply reachable_attainable, reachable_run_all, reachable_empty.
  - vm_compute. reflexivity.
  - reflexivity.
  - repeat constructor.
Defined.

Lemma getLeaderboard_ties_in_roster_order_witness :
  exists ranking,
    getLeaderboard "123456" sample_answered = (inr (take 10 ranking), sample_answered) /\
    Permutation ranking (JsObject.values (players sample_answered_state)) /\
    descending ranking /\
    forall s,
      with_score s ranking
      = with_score s (JsObject.values (players sample_answered_state)).
Proof.
  apply (getLeaderboard_ties_in_roster_order sample_answered "123456"
           sample_answered_state).
  vm_compute. reflexivity.
Defined.

Lemma getLeaderboard_cut_witness :
  exists board rest,
    getLeaderboard "123456" sample_crowded = (inr board, sample_crowded) /\
    Permutation (board ++ rest)%list (JsObject.values sample_crowd) /\
    (forall p q, In p board -> In q rest -> Player.score q <= Player.score p) /\
    ((length (JsObject.values sample_crowd) <= 10)%nat -> rest = []).
Proof.
  apply (getLeaderboard_cut sample_crowded "123456" sample_crowd_state).
  vm_compute. reflexivity.
Defined.

Lemma startGame_restarts_with_scores_witness :
  exists st1 r,
    startGame "123456" 9000 sample_answered
      = (inr (Some st1), <[session_key "123456" := st1]> sample_answered) /\
    status st1 = ACTIVE /\ startTime st1 = Some 9000 /\
    currentQuestionIndex st1 = -1 /\
    players st1 = players sample_answered_state /\
    answers st1 = answers sample_answered_state /\
    nextQuestion sample_findQuiz "123456" 9500
      (<[session_key "123456" := st1]> sample_answered)
      = (inr r, <[session_key "123456" := nq_state r]> sample_answered) /\
    question r = Some question1 /\
    status (nq_state r) = SHOWING_QUESTION /\
    currentQuestionIndex (nq_state r) = 0 /\
    answers (nq_state r) = JsObject.empty /\
    players (nq_state r) = players sample_answered_state.
Proof.
  apply (startGame_restarts_with_scores sample_findQuiz sample_answered "123456"
           sample_answered_state 9000 9500 question1).
  - vm_compute. reflexivity.
  - reflexivity.
Defined.

Lemma showResults_repeatable_witness :
  exists r,
    outcome (showResults sample_findQuiz "123456") sample_answered = inr r /\
    showResults sample_findQuiz "123456"
      (stored (showResults sample_findQuiz "123456") sample_answered)
    = (inr r, stored (showResults sample_findQuiz "123456") sample_answered).
Proof.
  destruct (outcome (showResults sample_findQuiz "123456") sample_answered)
    as [e|r] eqn:Hr; [vm_compute in Hr; discriminate|].
  exists r. split; [reflexivity|].
  apply (showResults_repeatable sample_findQuiz sample_answered "123456" r Hr).
Defined.

Lemma answers_closed_after_results_witness :
  submitAnswer sample_findQuiz "123456" "P4" 1 9000
    (stored (showResults sample_findQuiz "123456") sample_answered)
  = (inl NotAcceptingAnswers,
     stored (showResults sample_findQuiz "123456") sample_answered).
Proof.
  destruct (outcome (showResults sample_findQuiz "123456") sample_answered)
    as [e|r] eqn:Hr; [vm_compute in Hr; discriminate|].
  apply (answers_closed_after_results sample_findQuiz sample_answered "123456" r
           "P4" 1 9000 Hr).
Defined.

Lemma nextQuestion_without_questions_witness :
  exists r,
    nextQuestion sample_findQuiz "777777" 2000 sample_orphan
      = (inr r, <[session_key "777777" := nq_state r]> sample_orphan) /\
    question r = None /\
    totalQuestions r = 0 /\
    status (nq_state r) = ENDED /\
    currentQuestionIndex (nq_state r) = currentQuestionIndex sample_orphan_state + 1.
Proof.
  apply (nextQuestion_without_questions sample_findQuiz sample_orphan "777777"
           sample_orphan_state 2000).
  - vm_compute. reflexivity.
  - left. reflexivity.
Defined.



Lemma showResults_counts_agree_witness :
  exists r,
    outcome (showResults sample_findQuiz "123456") sample_answered = inr r /\
    (0 <= sr_correctOptionIndex r < 4 ->
     answerDistribution r !! Z.to_nat (sr_correctOptionIndex r)
       = Some (correctCount r)) /\
    Forall (fun x => 0 <= x) (answerDistribution r) /\
    0 <= correctCount r
      <= Z.of_nat (length (JsObject.values (answers sample_answered_state))) /\
    sum_list (answerDistribution r)
      <= Z.of_nat (length (JsObject.values (answers sample_answered_state))).
Proof.
  destruct (outcome (showResults sample_findQuiz "123456") sample_answered)
    as [e|r] eqn:Hr; [vm_compute in Hr; discriminate|].
  exists r. split; [reflexivity|].
  apply (showResults_counts_agree sample_findQuiz sample_answered "123456" r
           sample_answered_state).
  - vm_compute. reflexivity.
  - exact Hr.
Defined.

Lemma faster_answer_scores_no_less_witness :
  exists correct score1 score2,
    outcome (submitAnswer sample_findQuiz "123456" "P1" 0 5000) sample_asking
      = inr (correct, score1) /\
    outcome (submitAnswer sample_findQuiz "123456" "P1" 0 12000) sample_asking
      = inr (correct, score2) /\
    score2 <= score1.
Proof.
  apply (faster_answer_scores_no_less sample_findQuiz sample_asking "123456" "P1" 0
           5000 12000 sample_asking_state question1).
  - vm_compute. reflexivity.
  - reflexivity.
  - reflexivity.
  - reflexivity.
  - simpl. lia.
  - lia.
Defined.

Lemma session_and_roster_persist_witness :
  let ms :=
    [Begin (SubmitAnswer "123456" "P1" 0 5000); Begin (ShowResults "123456");
     Begin (SubmitAnswer "123456" "P2" 0 5500); Land 1; Land 1; Land 0] in
  (same_session_moves (session_key "123456") ms ->
   exists st',
     w_redis (overlapped sample_findQuiz ms sample_asking) !! session_key "123456"
       = Some st' /\
     sessionId st' = sessionId sample_asking_state /\
     quizId st' = quizId sample_asking_state /\
     hostId st' = hostId sample_asking_state) /\
  (same_session (session_key "123456") sample_rest_of_game ->
   exists st',
     run_all sample_findQuiz sample_rest_of_game sample_asking
       !! session_key "123456" = Some st' /\
     sessionId st' = sessionId sample_asking_state /\
     quizId st' = quizId sample_asking_state /\
     hostId st' = hostId sample_asking_state /\
     forall playerId,
       is_Some (JsObject.get (players sample_asking_state) playerId) ->
       is_Some (JsObject.get (players st') playerId)) /\
  (forall nickname1 playerId1 nickname2 playerId2,
     status sample_asking_state = WAITING ->
     playerId1 <> playerId2 ->
     JsObject.get (players sample_asking_state) playerId1 = None ->
     let joins :=
       [Begin (JoinSession "123456" nickname1 playerId1);
        Begin (JoinSession "123456" nickname2 playerId2)] in
     exists st1 st2,
       w_redis (overlapped sample_findQuiz (joins ++ [Land 0])%list sample_asking)
         !! session_key "123456" = Some st1 /\
       JsObject.get (players st1) playerId1
         = Some (Player.mk playerId1 nickname1 0) /\
       w_redis (overlapped sample_findQuiz (joins ++ [Land 0; Land 0])%list sample_asking)
         !! session_key "123456" = Some st2 /\
       JsObject.get (players st2) playerId1 = None /\
       JsObject.get (players st2) playerId2
         = Some (Player.mk playerId2 nickname2 0)).
Proof.
  apply (session_and_roster_persist sample_findQuiz
           [Begin (SubmitAnswer "123456" "P1" 0 5000); Begin (ShowResults "123456");
            Begin (SubmitAnswer "123456" "P2" 0 5500); Land 1; Land 1; Land 0]
           sample_rest_of_game sample_asking "123456" sample_asking_state).
  vm_compute. reflexivity.
Defined.

(** Two players join the sample lobby at the same moment: Carol is on
    the stored roster after her write and off it after Dave's. *)
Example overlapping_joins_lose_a_player :
  let joins :=
    [Begin (JoinSession "123456" "Carol" "P3"); Begin (JoinSession "123456" "Dave" "P4")] in
  (JsObject.keys <$> (players <$>
     w_redis (overlapped sample_findQuiz (joins ++ [Land 0])%list sample_lobby)
       !! session_key "123456")) = Some ["P1"; "P2"; "P3"] /\
  (JsObject.keys <$> (players <$>
     w_redis (overlapped sample_findQuiz (joins ++ [Land 0; Land 0])%list sample_lobby)
       !! session_key "123456")) = Some ["P1"; "P2"; "P4"].
Proof. vm_compute. done. Qed.

Lemma no_join_after_start_witness :
  (status sample_asking_state <> WAITING ->
   same_session (session_key "123456") sample_rest_of_game ->
   let db' := run_all sample_findQuiz sample_rest_of_game sample_asking in
   joinSession "123456" "Eve" "P9" db' = (inl GameAlreadyStarted, db')) /\
  (status sample_asking_state = WAITING ->
   forall now,
     let calls :=
       [Begin (JoinSession "123456" "Eve" "P9"); Begin (StartGame "123456" now)] in
     let db1 :=
       w_redis (overlapped sample_findQuiz (calls ++ [Land 1])%list sample_asking) in
     let db2 :=
       w_redis (overlapped sample_findQuiz (calls ++ [Land 1; Land 0])%list sample_asking) in
     exists st1 st2,
       db1 !! session_key "123456" = Some st1 /\ status st1 = ACTIVE /\
       db2 !! session_key "123456" = Some st2 /\ status st2 = WAITING /\
       forall nickname' playerId',
         exists st3,
           joinSession "123456" nickname' playerId' db2
             = (inr st3, <[session_key "123456" := st3]> db2)).
Proof.
  apply (no_join_after_start sample_findQuiz sample_rest_of_game sample_asking
           "123456" sample_asking_state "Eve" "P9").
  vm_compute. reflexivity.
Defined.

(** A join that overlaps the start of the sample game: the lobby is
    open again after the host has started. *)
Example overlapping_join_reopens_the_lobby :
  let calls :=
    [Begin (JoinSession "123456" "Eve" "P9"); Begin (StartGame "123456" 1000)] in
  (status <$>
     w_redis (overlapped sample_findQuiz (calls ++ [Land 1])%list sample_lobby)
       !! session_key "123456") = Some ACTIVE /\
  (status <$>
     w_redis (overlapped sample_findQuiz (calls ++ [Land 1; Land 0])%list sample_lobby)
       !! session_key "123456") = Some WAITING.
Proof. vm_compute. done. Qed.

Lemma createSession_opens_empty_lobby_witness :
  let fresh :=
    mkGameState "session-3" "quiz-1" "host-1" WAITING (-1)
      JsObject.empty JsObject.empty None None in
  let db' := stored (createSession "quiz-1" "host-1" "222222" "session-3") sample_asking in
  outcome (createSession "quiz-1" "host-1" "222222" "session-3") sample_asking
    = inr "222222" /\
  getSession "222222" db' = (inr (Some fresh), db') /\
  outcome (getLeaderboard "222222") db' = inr [] /\
  (forall other, other <> "222222" ->
     db' !! session_key other = sample_asking !! session_key other) /\
  (forall nickname playerId,
     exists st,
       joinSession "222222" nickname playerId db'
         = (inr st, <[session_key "222222" := st]> db') /\
       JsObject.values (players st) = [Player.mk playerId nickname 0]).
Proof.
  apply (createSession_opens_empty_lobby sample_asking "quiz-1" "host-1" "222222"
           "session-3").
  vm_compute. reflexivity.
Defined.

Lemma rejected_command_only_acknowledged_witness :
  raises (SubmitAnswer "123456" "P1" 0 5000) = true /\
  handle sample_findQuiz (submit_answer "123456" "P1" 0 5000) connected sample_lobby
  = mkHandled [Callback (failure "Not accepting answers")] connected sample_lobby.
Proof.
  apply (rejected_command_only_acknowledged sample_findQuiz
           (submit_answer "123456" "P1" 0 5000)
           (SubmitAnswer "123456" "P1" 0 5000) connected sample_lobby
           NotAcceptingAnswers).
  - reflexivity.
  - vm_compute. reflexivity.
Defined.



Lemma disconnect_keeps_the_player_witness :
  let h := handle sample_findQuiz (join_game "123456" "Carol" "P3") connected sample_lobby in
  let h' := handle sample_findQuiz disconnect (socket_after h) (redis_after h) in
  "123456" ∈ rooms (socket_after h) /\
  ("123456" <> "" -> "P3" <> "" ->
   outputs h' = [Broadcast "123456" (player_disconnected "P3")]) /\
  ("123456" = "" \/ "P3" = "" -> outputs h' = []) /\
  redis_after h' = redis_after h /\
  socket_after h' = socket_after h /\
  exists st',
    redis_after h' !! session_key "123456" = Some st' /\
    JsObject.get (players st') "P3" = Some (Player.mk "P3" "Carol" 0).
Proof.
  apply (disconnect_keeps_the_player sample_findQuiz "123456" "Carol" "P3" connected
           sample_lobby sample_lobby_state).
  - vm_compute. reflexivity.
  - reflexivity.
Defined.


(** The ledger rejects the update of [startGame] on the sample lobby:
    the call throws, and the stored game has started. *)
Example startGame_throws_after_its_write :
  let '(r, db) := startGame_ledgered (Some "Database error") "123456" 2000 sample_lobby in
  r = inl (ledger_rejected "Database error") /\
  (status <$> db !! session_key "123456") = Some ACTIVE /\
  (status <$> sample_lobby !! session_key "123456") = Some WAITING.
Proof. vm_compute. done. Qed.
